(** * ricochet-go: conversation backlog and per-contact connection agent

    A shallow embedding of the client conversation model
    ([Conversation]: backlog, unread counter, trimming, validation,
    read markers) and of the core contact connection logic ([Contact]:
    [setConnection], [shouldReplaceConnection], the connection loop),
    followed by the properties established about them. *)

From Stdlib Require Import ZArith Lia String Ascii Bool.
From stdpp Require Import base list gmap strings pretty.

Local Open Scope Z_scope.

(** ** Go machine integers *)

(** Go's [int] on the 64-bit targets: two's complement wrap-around. *)
Definition int_wrap (z : Z) : Z := (z + 2 ^ 63) mod 2 ^ 64 - 2 ^ 63.
Definition int_incr (z : Z) : Z := int_wrap (z + 1).
Definition int_decr (z : Z) : Z := int_wrap (z - 1).

(** [len(s)] of a slice or of a string, as an [int]. *)
Definition len {A} (l : list A) : Z := Z.of_nat (length l).
Definition strlen (s : string) : Z := Z.of_nat (String.length s).

(** A call either returns or panics (nil dereference, slice bounds). *)
Inductive outcome (A : Type) : Type :=
| Returns (a : A)
| Panics.
Arguments Returns {A} a.
Arguments Panics {A}.

(** ** Conversation (client side) *)

Module Conv.

(** Modelled from the spec: the message status enumeration of the RPC
    message type, whose protobuf declaration is not among the sources
    (status is one of NULL, SENDING, QUEUED, SENT, DELIVERED, READ,
    UNREAD, ERROR). *)
Inductive Message_Status : Set :=
| Message_NULL
| Message_SENDING
| Message_QUEUED
| Message_SENT
| Message_DELIVERED
| Message_READ
| Message_UNREAD
| Message_ERROR.

#[global] Instance Message_Status_eq_dec : EqDecision Message_Status.
Proof. solve_decision. Defined.

(** Modelled from the spec: the entity and message records of the RPC
    interface (sender and recipient entities, identifier, status, text);
    only the fields the conversation code reads are kept. A nil entity
    pointer is [None]. *)
Record Entity : Set := mkEntity {
  ContactId : Z;
  Address : string;
  IsSelf : bool
}.

Record Message : Set := mkMessage {
  Sender : option Entity;
  Recipient : option Entity;
  Identifier : Z;
  Status : Message_Status;
  Text : string
}.

Record MarkConversationReadRequest : Set := mkMarkRead {
  ReqEntity : option Entity;
  LastRecvIdentifier : Z
}.

Definition maxMessageTextLength : Z := 2000.
Definition backlogContextNum : Z := 3.
Definition backlogSoftLimit : Z := 100.
Definition backlogHardLimit : Z := 200.

(** The errors the conversation code constructs, one constructor per
    construction site, and the error a backend call may hand back. *)
Inductive error : Set :=
| ErrEntitiesIncomplete
| ErrInvalidSelfEntity
| ErrInvalidRemoteEntity
| ErrNullStatus
| ErrTextUnacceptable
| ErrOutboundMarkRead
| ErrBackend (code : Z).

(** What a call writes to the outside: the log, the terminal, and the
    backend RPC. *)
Inductive effect : Set :=
| ELogRejected (e : error)
| ELogRejectedUpdate (e : error)
| ELogUnknownUpdate (m : Message)
| ELogMarkReadFailed (e : error)
| ENotifyUnread (n : Z)
| EPrintLine (m : Message)
| ERpcMarkConversationRead (r : MarkConversationReadRequest).

(** The backend's answer to a MarkConversationRead call. *)
Definition Backend : Set := MarkConversationReadRequest -> option error.

(** [Conversation], with the two addresses it reaches through its
    [Client] and [Contact] pointers held by value. *)
Record Conversation : Set := mkConversation {
  identityAddress : string;
  contactAddress : string;
  messages : list Message;
  numUnread : Z;
  active : bool
}.

Definition set_messages (c : Conversation) (ms : list Message) : Conversation :=
  mkConversation (identityAddress c) (contactAddress c) ms (numUnread c) (active c).

Definition set_numUnread (c : Conversation) (n : Z) : Conversation :=
  mkConversation (identityAddress c) (contactAddress c) (messages c) n (active c).

Definition is_unread (m : Message) : bool :=
  bool_decide (Status m = Message_UNREAD).

(** [validateMessage]: [None] is the nil error. *)
Definition validateMessage (c : Conversation) (msg : Message) : option error :=
  match Sender msg, Recipient msg with
  | Some sender, Some recipient =>
      let localEntity := if IsSelf sender then sender else recipient in
      let remoteEntity := if IsSelf sender then recipient else sender in
      if negb (IsSelf localEntity)
         || ((0 <? strlen (Address localEntity))
             && negb (String.eqb (Address localEntity) (identityAddress c)))
      then Some ErrInvalidSelfEntity
      else if IsSelf remoteEntity
              || negb (String.eqb (Address remoteEntity) (contactAddress c))
      then Some ErrInvalidRemoteEntity
      else if bool_decide (Status msg = Message_NULL)
      then Some ErrNullStatus
      else if (strlen (Text msg) =? 0) || (maxMessageTextLength <? strlen (Text msg))
      then Some ErrTextUnacceptable
      else None
  | _, _ => Some ErrEntitiesIncomplete
  end.

(** [recountUnread]: the loop body is [numUnread++] on each UNREAD. *)
Fixpoint recount_loop (ms : list Message) (n : Z) : Z :=
  match ms with
  | [] => n
  | m :: rest => recount_loop rest (if is_unread m then int_incr n else n)
  end.

Definition recountUnread (c : Conversation) : Conversation :=
  set_numUnread c (recount_loop (messages c) 0).

(** The [range] loop of [trimBacklog] from index [i] on, [ms] being the
    messages not yet visited and [n] the length of the whole backlog;
    falling off the end leaves [keepIndex] at its zero value. *)
Fixpoint findKeepIndex (n : Z) (ms : list Message) (i : Z) : Z :=
  match ms with
  | [] => 0
  | message :: rest =>
      if is_unread message then
        let keepIndex := i - backlogContextNum in
        if keepIndex <? 0 then 0 else keepIndex
      else if n - i <=? backlogSoftLimit then i
      else findKeepIndex n rest (i + 1)
  end.

Definition trimHard (c : Conversation) : Conversation :=
  if backlogHardLimit <? len (messages c) then
    recountUnread
      (set_messages c (drop (Z.to_nat (len (messages c) - backlogHardLimit)) (messages c)))
  else c.

Definition trimSoft (c : Conversation) : Conversation :=
  if len (messages c) <=? backlogSoftLimit then c
  else
    let keepIndex := findKeepIndex (len (messages c)) (messages c) 0 in
    set_messages c (drop (Z.to_nat keepIndex) (messages c)).

Definition trimBacklog (c : Conversation) : Conversation :=
  trimSoft (trimHard c).

(** [printMessage] *)
Definition printMessage (c : Conversation) (msg : Message) : outcome (list effect) :=
  match Sender msg with
  | None => Panics
  | Some sender =>
      if negb (active c) then
        if IsSelf sender then Returns [] else Returns [ENotifyUnread (numUnread c)]
      else Returns [EPrintLine msg]
  end.

(** [MarkAsReadBefore]: the returned error and what was sent out. *)
Definition MarkAsReadBefore (backend : Backend) (c : Conversation) (message : Message)
  : outcome (option error * list effect) :=
  match validateMessage c message with
  | Some err => Returns (Some err, [])
  | None =>
      match Sender message with
      | None => Panics
      | Some sender =>
          if IsSelf sender then Returns (Some ErrOutboundMarkRead, [])
          else
            let req := mkMarkRead (Sender message) (Identifier message) in
            match backend req with
            | Some err =>
                Returns (Some err, [ERpcMarkConversationRead req; ELogMarkReadFailed err])
            | None => Returns (None, [ERpcMarkConversationRead req])
            end
      end
  end.

(** The labelled loop of [MarkAsRead]: indices [i-1] down to [0]. *)
Fixpoint findMessageId (ms : list Message) (i : nat) : option Message :=
  match i with
  | O => None
  | S j =>
      match ms !! j with
      | None => None
      | Some m =>
          match Status m with
          | Message_UNREAD => Some m
          | Message_READ => None
          | _ => findMessageId ms j
          end
      end
  end.

Definition MarkAsRead (backend : Backend) (c : Conversation)
  : outcome (option error * list effect) :=
  match findMessageId (messages c) (length (messages c)) with
  | Some lastRecvMsg => MarkAsReadBefore backend c lastRecvMsg
  | None => Returns (None, [])
  end.

(** [AddMessage] *)
Definition AddMessage (backend : Backend) (c : Conversation) (msg : Message)
  (populating : bool) : outcome (Conversation * list effect) :=
  match validateMessage c msg with
  | Some err => Returns (c, [ELogRejected err])
  | None =>
      let c1 := set_messages c (messages c ++ [msg]) in
      let c2 := if is_unread msg then set_numUnread c1 (int_incr (numUnread c1)) else c1 in
      let c3 := trimBacklog c2 in
      if populating then Returns (c3, [])
      else
        match printMessage c3 msg with
        | Panics => Panics
        | Returns out1 =>
            if active c3 then
              match MarkAsReadBefore backend c3 msg with
              | Panics => Panics
              | Returns (_, out2) => Returns (c3, out1 ++ out2)
              end
            else Returns (c3, out1)
        end
  end.

(** The search loop of [UpdateMessage]: indices [i-1] down to [0];
    dereferencing a nil [Sender] panics. *)
Fixpoint updateLoop (c : Conversation) (updatedMsg : Message) (updSelf : bool) (i : nat)
  : outcome (Conversation * list effect) :=
  match i with
  | O => Returns (c, [ELogUnknownUpdate updatedMsg])
  | S j =>
      match messages c !! j with
      | None => Panics
      | Some msg =>
          match Sender msg with
          | None => Panics
          | Some sender =>
              if negb (Bool.eqb (IsSelf sender) updSelf)
                 || negb (Identifier msg =? Identifier updatedMsg)
              then updateLoop c updatedMsg updSelf j
              else
                let c1 :=
                  if is_unread msg && negb (is_unread updatedMsg)
                  then set_numUnread c (int_decr (numUnread c)) else c in
                Returns (set_messages c1 (<[j := updatedMsg]> (messages c1)), [])
          end
      end
  end.

Definition UpdateMessage (c : Conversation) (updatedMsg : Message)
  : outcome (Conversation * list effect) :=
  match validateMessage c updatedMsg with
  | Some err => Returns (c, [ELogRejectedUpdate err])
  | None =>
      match Sender updatedMsg with
      | None => Panics
      | Some s => updateLoop c updatedMsg (IsSelf s) (length (messages c))
      end
  end.

(** The first two statements of [AddMessage] for a message that
    validates: the append and the counter bump. *)
Definition appended (c : Conversation) (msg : Message) : Conversation :=
  let c1 := set_messages c (messages c ++ [msg]) in
  if is_unread msg then set_numUnread c1 (int_incr (numUnread c1)) else c1.

(** The claimed scan of [MarkAsRead], following the specification's
    words rather than the code: newest to oldest, take the most recent
    UNREAD message, stop at the first READ message or at the first
    self-sent message. It is compared with [findMessageId] below. *)
Fixpoint claimedScan (newestFirst : list Message) : option Message :=
  match newestFirst with
  | [] => None
  | m :: older =>
      if match Sender m with Some s => IsSelf s | None => false end then None
      else if bool_decide (Status m = Message_READ) then None
      else if bool_decide (Status m = Message_UNREAD) then Some m
      else claimedScan older
  end.

Definition claimedMarkAsRead (backend : Backend) (c : Conversation)
  : outcome (option error * list effect) :=
  match claimedScan (rev (messages c)) with
  | Some lastRecvMsg => MarkAsReadBefore backend c lastRecvMsg
  | None => Returns (None, [])
  end.

(** The number of UNREAD messages of a backlog. *)
Definition unread_count (ms : list Message) : Z :=
  len (filter (fun m => Status m = Message_UNREAD) ms).

(** [UnreadCount] *)
Definition UnreadCount (c : Conversation) : Z := numUnread c.

Definition set_active (c : Conversation) (a : bool) : Conversation :=
  mkConversation (identityAddress c) (contactAddress c) (messages c) (numUnread c) a.

(** The first loop of [PrintContext] from index [i] on: [start] is
    overwritten at the oldest UNREAD message. *)
Fixpoint contextStart (ms : list Message) (i : Z) (start : Z) : Z :=
  match ms with
  | [] => start
  | message :: rest =>
      if is_unread message then i - backlogContextNum
      else contextStart rest (i + 1) start
  end.

(** The second loop of [PrintContext]: [printMessage] on each message. *)
Fixpoint printLoop (c : Conversation) (ms : list Message) : outcome (list effect) :=
  match ms with
  | [] => Returns []
  | m :: rest =>
      match printMessage c m with
      | Panics => Panics
      | Returns out1 =>
          match printLoop c rest with
          | Panics => Panics
          | Returns out2 => Returns (out1 ++ out2)
          end
      end
  end.

(** [PrintContext] *)
Definition PrintContext (c : Conversation) : outcome (list effect) :=
  let start := contextStart (messages c) 0 (len (messages c) - backlogContextNum) in
  let start := if start <? 0 then 0 else start in
  printLoop c (drop (Z.to_nat start) (messages c)).

(** [SetActive]; the error of [MarkAsRead] is dropped. *)
Definition SetActive (backend : Backend) (c : Conversation) (a : bool)
  : outcome (Conversation * list effect) :=
  if Bool.eqb a (active c) then Returns (c, [])
  else
    let c1 := set_active c a in
    if a then
      match PrintContext c1 with
      | Panics => Panics
      | Returns out1 =>
          match MarkAsRead backend c1 with
          | Panics => Panics
          | Returns (_, out2) => Returns (c1, out1 ++ out2)
          end
      end
    else Returns (c1, []).

(** Every message of the backlog passes [validateMessage]. *)
Definition backlog_valid (c : Conversation) : Prop :=
  Forall (fun m => validateMessage c m = None) (messages c).

(** [m] is the message an update [u] is matched against: same
    direction and same identifier. *)
Definition matches (u m : Message) : Prop :=
  match Sender u, Sender m with
  | Some su, Some sm => IsSelf sm = IsSelf su /\ Identifier m = Identifier u
  | _, _ => False
  end.

End Conv.

(** ** Contact connection agent (core) *)

Module Agent.

(** [time.Time] as nanoseconds on the clock's axis, [time.Duration] as
    an [int64] count of nanoseconds. *)
Definition time_Second : Z := 1000000000.
Definition maxDuration : Z := 2 ^ 63 - 1.
Definition minDuration : Z := - 2 ^ 63.

(** [Time.Sub] saturates at the ends of the [Duration] range;
    [time.Since(t)] is [now.Sub(t)]. *)
Definition time_Sub (t u : Z) : Z :=
  if maxDuration <? t - u then maxDuration
  else if t - u <? minDuration then minDuration
  else t - u.

Definition time_Since (now t : Z) : Z := time_Sub now t.

(** [Contact.Status] of the RPC interface. *)
Inductive Contact_Status : Set :=
| Contact_UNKNOWN
| Contact_OFFLINE
| Contact_ONLINE
| Contact_REQUEST
| Contact_REJECTED.

#[global] Instance Contact_Status_eq_dec : EqDecision Contact_Status.
Proof. solve_decision. Defined.

(** Modelled from the spec: the persisted contact fields ([Hostname],
    [Nickname], [WhenCreated], [LastConnected] and the nested [Request]
    block); the declaration of the configuration types is not among the
    sources. *)
Record ConfigContactRequest : Set := mkRequest {
  Pending : bool;
  MyNickname : string;
  Message : string;
  WhenDelivered : string;
  WhenRejected : string;
  RemoteError : string
}.

Record ConfigContact : Set := mkConfigContact {
  Hostname : string;
  Nickname : string;
  LastConnected : string;
  WhenCreated : string;
  Request : ConfigContactRequest
}.

(** The zero value [ConfigContactRequest{}]. *)
Definition emptyRequest : ConfigContactRequest :=
  mkRequest false EmptyString EmptyString EmptyString EmptyString EmptyString.

(** Modelled from the spec: a protocol session (the vendored
    [OpenConnection]): direction ([Client] is true when we dialed), the
    [IsAuthed] and [Closed] flags, the local and the peer's label.
    [Close] sets the closed flag. Sessions live in a heap and are named
    by their address, so that two references to one session alias. *)
Record OpenConnection : Set := mkConn {
  Client : bool;
  IsAuthed : bool;
  Closed : bool;
  MyHostname : string;
  OtherHostname : string
}.

Definition connptr : Set := positive.

(** Modelled from the spec: [OpenConnection.Close] of the vendored
    protocol library moves the session to CLOSED, that is, sets its
    closed flag; every reference to the session sees it. *)
Definition closeConn (oc : OpenConnection) : OpenConnection :=
  mkConn (Client oc) (IsAuthed oc) true (MyHostname oc) (OtherHostname oc).

Definition Close (p : connptr) (h : gmap connptr OpenConnection)
  : gmap connptr OpenConnection := alter closeConn p h.

(** The [Contact] fields the connection logic reads and writes. The two
    channels and the mutex are not data; [connChannel] records whether
    the channel is non-nil. *)
Record Contact : Set := mkContact {
  id : Z;
  data : ConfigContact;
  status : Contact_Status;
  connEnabled : bool;
  connection : option connptr;
  connChannel : bool;
  timeConnected : Z;
  outboundConnAuthKnown : bool
}.

(** What the agent does to its collaborators, in program order. *)
Inductive action : Set :=
| ADial
| ACancelDial
| ASendContactRequest (conn : connptr) (channel : Z) (nick msg : string)
| APublishUpdate (st : Contact_Status) (d : ConfigContact)
| ASendQueuedMessages.

(** The contact together with the session heap, the saved configuration
    document ([Contacts], keyed by the decimal contact id) and the
    actions taken so far. *)
Record World : Type := mkWorld {
  contact : Contact;
  heap : gmap connptr OpenConnection;
  config : gmap string ConfigContact;
  trace : list action
}.

Definition set_contact (w : World) (c : Contact) : World :=
  mkWorld c (heap w) (config w) (trace w).
Definition set_heap (w : World) (h : gmap connptr OpenConnection) : World :=
  mkWorld (contact w) h (config w) (trace w).
Definition set_config (w : World) (g : gmap string ConfigContact) : World :=
  mkWorld (contact w) (heap w) g (trace w).
Definition emit (w : World) (a : action) : World :=
  mkWorld (contact w) (heap w) (config w) (trace w ++ [a]).

Definition set_data (c : Contact) (d : ConfigContact) : Contact :=
  mkContact (id c) d (status c) (connEnabled c) (connection c) (connChannel c)
    (timeConnected c) (outboundConnAuthKnown c).
Definition set_status (c : Contact) (s : Contact_Status) : Contact :=
  mkContact (id c) (data c) s (connEnabled c) (connection c) (connChannel c)
    (timeConnected c) (outboundConnAuthKnown c).
Definition set_connEnabled (c : Contact) (b : bool) : Contact :=
  mkContact (id c) (data c) (status c) b (connection c) (connChannel c)
    (timeConnected c) (outboundConnAuthKnown c).
Definition set_connection (c : Contact) (p : option connptr) : Contact :=
  mkContact (id c) (data c) (status c) (connEnabled c) p (connChannel c)
    (timeConnected c) (outboundConnAuthKnown c).
Definition set_connChannel (c : Contact) (b : bool) : Contact :=
  mkContact (id c) (data c) (status c) (connEnabled c) (connection c) b
    (timeConnected c) (outboundConnAuthKnown c).
Definition set_timeConnected (c : Contact) (t : Z) : Contact :=
  mkContact (id c) (data c) (status c) (connEnabled c) (connection c) (connChannel c)
    t (outboundConnAuthKnown c).
Definition set_outboundConnAuthKnown (c : Contact) (b : bool) : Contact :=
  mkContact (id c) (data c) (status c) (connEnabled c) (connection c) (connChannel c)
    (timeConnected c) b.

Definition set_Request (d : ConfigContact) (r : ConfigContactRequest) : ConfigContact :=
  mkConfigContact (Hostname d) (Nickname d) (LastConnected d) (WhenCreated d) r.
Definition set_LastConnected (d : ConfigContact) (s : string) : ConfigContact :=
  mkConfigContact (Hostname d) (Nickname d) s (WhenCreated d) (Request d).
Definition set_WhenDelivered (r : ConfigContactRequest) (s : string) : ConfigContactRequest :=
  mkRequest (Pending r) (MyNickname r) (Message r) s (WhenRejected r) (RemoteError r).
Definition set_WhenRejected (r : ConfigContactRequest) (s : string) : ConfigContactRequest :=
  mkRequest (Pending r) (MyNickname r) (Message r) (WhenDelivered r) s (RemoteError r).
Definition set_RemoteError (r : ConfigContactRequest) (s : string) : ConfigContactRequest :=
  mkRequest (Pending r) (MyNickname r) (Message r) (WhenDelivered r) (WhenRejected r) s.

(** The errors [setConnection] constructs, one per construction site. *)
Inductive error : Set :=
| ErrDuplicateAssignment
| ErrInvalidState
| ErrHostnameMismatch
| ErrNotKnownContact
| ErrUsingExisting.

(** [s[0:16]] on a string: slicing past the end panics. *)
Definition label16 (s : string) : outcome string :=
  if strlen s <? 16 then Panics else Returns (substring 0 16 s).

(** [shouldMakeOutboundConnections] *)
Definition shouldMakeOutboundConnections (c : Contact) : bool :=
  if bool_decide (status c = Contact_REJECTED) then false
  else connEnabled c.

(** [shouldReplaceConnection], [now] being the reading of the clock that
    [time.Since] takes. *)
Definition shouldReplaceConnection (c : Contact) (h : gmap connptr OpenConnection)
  (conn : connptr) (now : Z) : outcome bool :=
  match connection c with
  | None => Returns true
  | Some cur =>
      match h !! cur, h !! conn with
      | Some old, Some new =>
          if Closed old then Returns true
          else if Bool.eqb (Client old) (Client new) then Returns true
          else if 30 * time_Second <? time_Since now (timeConnected c) then Returns true
          else
            let preferOutbound := String.ltb (MyHostname new) (OtherHostname new) in
            if Bool.eqb preferOutbound (Client new) then Returns true
            else Returns false
      | _, _ => Panics
      end
  end.

(** Two sessions race at one endpoint whose own label is [my] and whose
    contact has the label [peer]: the candidate [conn] arrives while the
    contact holds the current session [cur] of the opposite direction;
    both are open, the candidate is authenticated and passes the checks
    that come before the duel in [setConnection], and at the reading
    [now] the current session is less than 30 seconds old. *)
Definition duel (w : World) (cur conn : connptr) (now : Z) (my peer : string) : Prop :=
  exists old new,
    connection (contact w) = Some cur /\ cur <> conn /\
    heap w !! cur = Some old /\ heap w !! conn = Some new /\
    Closed old = false /\ Closed new = false /\ IsAuthed new = true /\
    Client old = negb (Client new) /\
    MyHostname new = my /\ OtherHostname new = peer /\
    label16 (Hostname (data (contact w))) = Returns peer /\
    (Client new = true ->
     outboundConnAuthKnown (contact w) = true \/
     Pending (Request (data (contact w))) = true) /\
    time_Since now (timeConnected (contact w)) < 30 * time_Second.

(** In [w] the contact's connection is [kept], which is open and has
    direction [dialedByUs], and [other] is closed. *)
Definition keeps (w : World) (kept other : connptr) (dialedByUs : bool) : Prop :=
  connection (contact w) = Some kept /\
  (exists s, heap w !! kept = Some s /\ Closed s = false /\ Client s = dialedByUs) /\
  (exists o, heap w !! other = Some o /\ Closed o = true).

(** The outbound dials recorded in a trace. *)
Definition is_dial (a : action) : bool :=
  match a with
  | ADial => true
  | _ => false
  end.

Definition dials (t : list action) : nat := length (List.filter is_dial t).

Section WithTimeFormat.

(** [Time.Format(time.RFC3339)] *)
Variable formatRFC3339 : Z -> string.

(** The readings of [time.Now] one call of [setConnection] may take, in
    program order: in [shouldReplaceConnection], in
    [updateContactRequest], and for [timeConnected]. *)
Record Clock : Set := mkClock {
  nowDuel : Z;
  nowRequest : Z;
  nowConnected : Z
}.

(** [strconv.Itoa(c.id)] followed by the store into [config.Contacts]
    and [config.Save]. *)
Definition saveContact (w : World) : World :=
  set_config w (<[pretty (id (contact w)) := data (contact w)]> (config w)).

(** [updateContactRequest]; the result tells whether the request
    channel stays open. *)
Definition updateContactRequest (w : World) (st : string) (now : Z) : World * bool :=
  let c := contact w in
  let nowS := formatRFC3339 now in
  let '(c', re) :=
    if String.eqb st "Pending" then
      (set_data c (set_Request (data c) (set_WhenDelivered (Request (data c)) nowS)), true)
    else if String.eqb st "Accepted" then
      let c1 := set_data c (set_Request (data c) emptyRequest) in
      (match connection c1 with
       | Some _ => set_status c1 Contact_ONLINE
       | None => set_status c1 Contact_UNKNOWN
       end, false)
    else if String.eqb st "Rejected" then
      (set_data c (set_Request (data c) (set_WhenRejected (Request (data c)) nowS)), false)
    else if String.eqb st "Error" then
      (set_data c
         (set_Request (data c)
            (set_RemoteError (set_WhenRejected (Request (data c)) nowS) "error occurred")),
       false)
    else (c, false) in
  (saveContact (set_contact w c'), re).

(** [setConnection]: the returned error ([None] is nil) and the world
    it leaves. *)
Definition setConnection (w : World) (conn : connptr) (clk : Clock)
  : outcome (option error * World) :=
  let c := contact w in
  match heap w !! conn with
  | None => Panics
  | Some oc =>
      if bool_decide (Some conn = connection c) then Returns (Some ErrDuplicateAssignment, w)
      else if negb (IsAuthed oc) || Closed oc then
        Returns (Some ErrInvalidState, set_heap w (Close conn (heap w)))
      else
        match label16 (Hostname (data c)) with
        | Panics => Panics
        | Returns label =>
            if negb (String.eqb label (OtherHostname oc)) then
              Returns (Some ErrHostnameMismatch, set_heap w (Close conn (heap w)))
            else if Client oc && negb (outboundConnAuthKnown c)
                    && negb (Pending (Request (data c))) then
              Returns (Some ErrNotKnownContact, set_heap w (Close conn (heap w)))
            else
              let adopt (w0 : World) : outcome (option error * World) :=
                let w1 := set_contact w0 (set_connection (contact w0) (Some conn)) in
                let w2 :=
                  if Pending (Request (data (contact w1))) then
                    if Client oc && negb (outboundConnAuthKnown (contact w1)) then
                      emit w1 (ASendContactRequest conn 5
                                 (MyNickname (Request (data (contact w1))))
                                 (Message (Request (data (contact w1)))))
                    else fst (updateContactRequest w1 "Accepted" (nowRequest clk))
                  else set_contact w1 (set_status (contact w1) Contact_ONLINE) in
                let c3 := set_timeConnected (contact w2) (nowConnected clk) in
                let c4 := set_data c3 (set_LastConnected (data c3)
                                          (formatRFC3339 (timeConnected c3))) in
                let w4 := saveContact (set_contact w2 c4) in
                let w5 := emit w4 (APublishUpdate (status (contact w4)) (data (contact w4))) in
                Returns (None, emit w5 ASendQueuedMessages) in
              match connection c with
              | None => adopt w
              | Some cur =>
                  match shouldReplaceConnection c (heap w) conn (nowDuel clk) with
                  | Panics => Panics
                  | Returns true =>
                      adopt (set_contact (set_heap w (Close cur (heap w)))
                               (set_connection c None))
                  | Returns false =>
                      Returns (Some ErrUsingExisting, set_heap w (Close conn (heap w)))
                  end
              end
        end
  end.

(** [clearConnection] *)
Definition clearConnection (w : World) (ifConn : option connptr) (now : Z) : World * bool :=
  let c := contact w in
  match connection c with
  | None => (w, false)
  | Some conn =>
      if match ifConn with
         | Some p => negb (bool_decide (conn = p))
         | None => false
         end
      then (w, false)
      else
        let c1 := set_status (set_connection c None) Contact_OFFLINE in
        let c2 := set_data c1 (set_LastConnected (data c1) (formatRFC3339 now)) in
        let w1 := saveContact (set_contact w c2) in
        let w2 :=
          match heap w1 !! conn with
          | Some oc => if negb (Closed oc) then set_heap w1 (Close conn (heap w1)) else w1
          | None => w1
          end in
        (emit w2 (APublishUpdate (status (contact w2)) (data (contact w2))), true)
  end.

(** What the [select] of the connection loop can receive. *)
Inductive loopInput : Set :=
| InChannelClosed
| InSignal
| InConn (conn : connptr) (clk : Clock)
| InConnClosed (now : Z).

(** The head of one turn of [connectionLoop]: spawn an outbound
    connector when there is no connection and outbound connections
    should be made. The flag tells whether one was spawned. *)
Definition loopHead (w : World) : World * bool :=
  if bool_decide (connection (contact w) = None)
     && shouldMakeOutboundConnections (contact w)
  then (emit w ADial, true)
  else (w, false).

(** [outboundCancel] cancels the connector spawned in this turn, and is
    the empty function otherwise. *)
Definition outboundCancel (w : World) (spawned : bool) : World :=
  if spawned then emit w ACancelDial else w.

(** One turn of the loop on one received input; the flag tells whether
    the loop goes on. *)
Definition loopTurn (w : World) (input : loopInput) : outcome (World * bool) :=
  let '(w0, spawned) := loopHead w in
  match input with
  | InChannelClosed => Returns (outboundCancel w0 spawned, false)
  | InSignal => Returns (outboundCancel w0 spawned, true)
  | InConn conn clk =>
      let w1 := outboundCancel w0 spawned in
      match setConnection w1 conn clk with
      | Panics => Panics
      | Returns (Some _, w2) =>
          match heap w2 !! conn with
          | None => Panics
          | Some oc =>
              if negb (Closed oc) && negb (bool_decide (Some conn = connection (contact w2)))
              then Returns (set_heap w2 (Close conn (heap w2)), true)
              else Returns (w2, true)
          end
      | Returns (None, w2) => Returns (w2, true)
      end
  | InConnClosed now =>
      Returns (fst (clearConnection (outboundCancel w0 spawned) None now), true)
  end.

(** [contactConnection] fed the inputs its [select] receives, in order.
    When the inputs run out the goroutine is left at the [select] of the
    next turn, after that turn's head; [exitNow] is the reading used by
    the final [clearConnection]. *)
Fixpoint contactConnection (w : World) (inputs : list loopInput) (exitNow : Z)
  : outcome World :=
  match inputs with
  | [] => Returns (fst (loopHead w))
  | input :: rest =>
      match loopTurn w input with
      | Panics => Panics
      | Returns (w1, true) => contactConnection w1 rest exitNow
      | Returns (w1, false) => Returns (fst (clearConnection w1 None exitNow))
      end
  end.

(** [StartConnection], with the goroutine it starts run on [inputs]. *)
Definition StartConnection (w : World) (inputs : list loopInput) (exitNow : Z)
  : outcome World :=
  if connEnabled (contact w) then Returns w
  else
    contactConnection
      (set_contact w (set_connChannel (set_connEnabled (contact w) true) true))
      inputs exitNow.

(** [OnConnectionAuthenticated]: the world it leaves and the session it
    hands to the connection loop; sending on a nil channel blocks for
    good, which is [None]. *)
Definition OnConnectionAuthenticated (w : World) (conn : connptr) (knownContact : bool)
  : outcome (World * option connptr) :=
  match heap w !! conn with
  | None => Panics
  | Some oc =>
      let w1 := if negb (connChannel (contact w))
                then set_heap w (Close conn (heap w)) else w in
      let w2 := if Client oc
                then set_contact w1 (set_outboundConnAuthKnown (contact w1) knownContact)
                else w1 in
      Returns (w2, if connChannel (contact w2) then Some conn else None)
  end.

(** [OnConnectionClosed]: whether the connection loop is signalled.
    The channel for closed connections is made and cleared together
    with [connChannel], whose flag stands for both. *)
Definition OnConnectionClosed (w : World) (conn : option connptr) : bool :=
  if negb (bool_decide (connection (contact w) = conn))
     || negb (connChannel (contact w))
  then false
  else true.


(** [StopConnection] up to its wait for the loop to stop: the flag
    tells whether [connChannel] was closed, which the loop receives as
    [InChannelClosed]; closing a nil channel panics. *)
Definition StopConnection (w : World) : outcome (World * bool) :=
  if negb (connEnabled (contact w)) then Returns (w, false)
  else if connChannel (contact w)
  then Returns (set_contact w (set_connChannel (contact w) false), true)
  else Panics.



(** The current connection, if any, is a session of the heap that is
    authenticated and whose peer label is the contact's. *)
Definition current_ok (w : World) : Prop :=
  forall p, connection (contact w) = Some p ->
    exists oc, heap w !! p = Some oc /\ IsAuthed oc = true /\
               label16 (Hostname (data (contact w))) = Returns (OtherHostname oc).

(** The saved configuration holds the contact's data under its id. *)
Definition persisted (w : World) : Prop :=
  config w !! pretty (id (contact w)) = Some (data (contact w)).

End WithTimeFormat.

End Agent.

(** ** Protocol handlers (core) *)

Module Protocol.
Import Agent.

(** [ProtocolConnection]: the session it is assigned, whether its
    [Contact] is set (to the contact of the world) and the hostname used
    for client-side authentication. *)
Record ProtocolConnection : Set := mkPC {
  Conn : option connptr;
  hasContact : bool;
  pcMyHostname : string
}.

(** What a handler asks the session to send, in program order. *)
Inductive wire : Set :=
| WSendAuthenticationResult (conn : connptr) (channel : Z) (result isKnownContact : bool)
| WCloseChannel (conn : connptr) (channel : Z).

Definition setAuthed (b : bool) (oc : OpenConnection) : OpenConnection :=
  mkConn (Client oc) b (Closed oc) (MyHostname oc) (OtherHostname oc).

(** [OnDisconnect]: whether the connection loop is signalled. *)
Definition OnDisconnect (p : ProtocolConnection) (w : World) : bool :=
  if hasContact p then OnConnectionClosed w (Conn p) else false.


(** [OnAuthenticationResult]: the world it leaves, what it sends and
    the session it hands to the connection loop, if any. *)
Definition OnAuthenticationResult (p : ProtocolConnection) (w : World) (channelID : Z)
  (result isKnownContact : bool) : outcome (World * list wire * option connptr) :=
  match Conn p with
  | None => Panics
  | Some conn =>
      match heap w !! conn with
      | None => Panics
      | Some _ =>
          let w1 := set_heap w (alter (setAuthed result) conn (heap w)) in
          let out := [WCloseChannel conn channelID] in
          if negb result then Returns (set_heap w1 (Close conn (heap w1)), out, None)
          else if hasContact p then
            match OnConnectionAuthenticated w1 conn isKnownContact with
            | Panics => Panics
            | Returns (w2, d) => Returns (w2, out, d)
            end
          else Returns (w1, out, None)
      end
  end.

(** [OnAuthenticationProof]. [validateProof] stands for the vendored
    [ValidateProof]: its verdict and the session as it leaves it;
    [getContactByHostname] tells whether the lookup finds the contact of
    the world. *)
Definition OnAuthenticationProof
  (validateProof : OpenConnection -> bool * OpenConnection)
  (getContactByHostname : string -> bool)
  (p : ProtocolConnection) (w : World) (channelID : Z)
  : outcome (ProtocolConnection * World * list wire * option connptr) :=
  match Conn p with
  | None => Panics
  | Some conn =>
      match heap w !! conn with
      | None => Panics
      | Some s0 =>
          let '(valid, s1) := validateProof s0 in
          let w1 := set_heap w (<[conn := s1]> (heap w)) in
          let '(result, p1) :=
            if valid then
              if negb (strlen (OtherHostname s1) =? 16) then (false, p)
              else (true, mkPC (Conn p) (getContactByHostname (OtherHostname s1))
                            (pcMyHostname p))
            else (false, p) in
          let isKnownContact := hasContact p1 in
          let w2 := set_heap w1 (alter (setAuthed result) conn (heap w1)) in
          let out := [WSendAuthenticationResult conn channelID result isKnownContact;
                      WCloseChannel conn channelID] in
          if result && hasContact p1 then
            match OnConnectionAuthenticated w2 conn true with
            | Panics => Panics
            | Returns (w3, d) => Returns (p1, w3, out, d)
            end
          else Returns (p1, w2, out, None)
      end
  end.

End Protocol.

(** ** Network resolver (vendored utility) *)

Module Resolver.

(** [strings.Split] for a separator of one byte: the fields between
    the separators, at least one. *)
Fixpoint Split (s : string) (sep : ascii) : list string :=
  match s with
  | EmptyString => [EmptyString]
  | String ch rest =>
      if Ascii.eqb ch sep then EmptyString :: Split rest sep
      else
        match Split rest sep with
        | [] => [String ch EmptyString]
        | part :: parts => String ch part :: parts
        end
  end.

(** [strings.HasPrefix] *)
Definition HasPrefix (s pre : string) : bool := String.prefix pre s.

Inductive error : Set :=
| CannotResolveLocalTCPAddressError
| CannotDialLocalTCPAddressError
| CannotDialRicochetAddressError
| ProxyError.

(** The network as [Resolve] uses it: resolving and dialing a local
    TCP address, making the SOCKS5 dialer and dialing through it. A
    connection is named by a number. *)
Record Network : Type := mkNetwork {
  ResolveTCPAddr : string -> option string;
  DialTCP : string -> option Z;
  SOCKS5 : bool;
  TorDial : string -> option Z
}.

(** [NetworkResolver.Resolve]: the connection and the hostname it
    returns, or the error; indexing past the fields panics. *)
Definition Resolve (net : Network) (hostname : string)
  : outcome (Z * string + error) :=
  if HasPrefix hostname "127.0.0.1" then
    let addrParts := Split hostname "|" in
    match addrParts !! 0%nat with
    | None => Panics
    | Some local =>
        match ResolveTCPAddr net local with
        | None => Returns (inr CannotResolveLocalTCPAddressError)
        | Some tcpAddr =>
            match DialTCP net tcpAddr with
            | None => Returns (inr CannotDialLocalTCPAddressError)
            | Some conn =>
                match addrParts !! 1%nat with
                | None => Panics
                | Some onion => Returns (inl (conn, onion))
                end
            end
        end
    end
  else
    match
      (if HasPrefix hostname "ricochet:" then
         match Split hostname ":" !! 1%nat with
         | None => Panics
         | Some part => Returns part
         end
       else Returns hostname)
    with
    | Panics => Panics
    | Returns resolvedHostname =>
        if negb (SOCKS5 net) then Returns (inr ProxyError)
        else
          match TorDial net (resolvedHostname +:+ ".onion:9878") with
          | None => Returns (inr CannotDialRicochetAddressError)
          | Some conn => Returns (inl (conn, resolvedHostname))
          end
    end.

End Resolver.

(** ** Concrete conversations and contacts used in the examples *)

Module Fixtures.
Import Conv.

Definition selfAddr : string := "ricochet:aaaaaaaaaaaaaaaa".
Definition peerAddr : string := "ricochet:bbbbbbbbbbbbbbbb".

Definition selfEntity : Entity := mkEntity 0 selfAddr true.
Definition peerEntity : Entity := mkEntity 1 peerAddr false.

(** A message received from the peer, and one sent to it. *)
Definition inbound (ident : Z) (st : Message_Status) (text : string) : Message :=
  mkMessage (Some peerEntity) (Some selfEntity) ident st text.
Definition outbound (ident : Z) (st : Message_Status) (text : string) : Message :=
  mkMessage (Some selfEntity) (Some peerEntity) ident st text.

Definition okBackend : Backend := fun _ => None.

(** A text of [n] bytes. *)
Fixpoint textOfLength (n : nat) : string :=
  match n with
  | O => EmptyString
  | S k => String "a" (textOfLength k)
  end.

(** A backlog of 100 whose only UNREAD message is at index 50. *)
Definition backlog100 : list Message :=
  replicate 50 (inbound 1 Message_READ "old") ++
  [inbound 2 Message_UNREAD "new"] ++
  replicate 49 (inbound 3 Message_READ "later").

Definition conv100 : Conversation :=
  mkConversation selfAddr peerAddr backlog100 1 false.

(** A backlog of 201 whose oldest message is its only UNREAD one. *)
Definition conv201 : Conversation :=
  mkConversation selfAddr peerAddr
    (inbound 1 Message_UNREAD "first" :: replicate 200 (inbound 2 Message_READ "rest"))
    1 false.

(** A backlog of 201 without any UNREAD message. *)
Definition conv201read : Conversation :=
  mkConversation selfAddr peerAddr (replicate 201 (inbound 2 Message_READ "rest")) 0 false.

(** A backlog of 150 whose oldest UNREAD message is at index 10. *)
Definition conv150 : Conversation :=
  mkConversation selfAddr peerAddr
    (replicate 10 (inbound 1 Message_READ "old") ++
     inbound 2 Message_UNREAD "new" :: replicate 139 (inbound 3 Message_READ "later"))
    1 false.

(** One READ message from the peer, counted as such. *)
Definition convRead : Conversation :=
  mkConversation selfAddr peerAddr [inbound 7 Message_READ "hello"] 0 false.

(** An UNREAD message from the peer followed by a delivered reply. *)
Definition convReplied : Conversation :=
  mkConversation selfAddr peerAddr
    [inbound 7 Message_UNREAD "hello"; outbound 8 Message_DELIVERED "hi"] 1 false.

(** Two endpoints with the labels [labelA < labelB], each holding the
    session it dialed itself when the session the other side dialed
    arrives. *)
Definition labelA : string := "aaaaaaaaaaaaaaaa".
Definition labelB : string := "bbbbbbbbbbbbbbbb".

Definition noFormat : Z -> string := fun _ => EmptyString.

Definition contactData (label : string) : Agent.ConfigContact :=
  Agent.mkConfigContact (label +:+ ".onion") "peer" EmptyString EmptyString
    Agent.emptyRequest.

Definition onlineContact (label : string) (cur : option Agent.connptr) : Agent.Contact :=
  Agent.mkContact 1 (contactData label) Agent.Contact_ONLINE true cur true 0 true.

Definition session (dialed : bool) (my peer : string) : Agent.OpenConnection :=
  Agent.mkConn dialed true false my peer.

Definition worldA : Agent.World :=
  Agent.mkWorld (onlineContact labelB (Some 1%positive))
    (<[1%positive := session true labelA labelB]>
       (<[2%positive := session false labelA labelB]> ∅))
    ∅ [].

Definition worldB : Agent.World :=
  Agent.mkWorld (onlineContact labelA (Some 1%positive))
    (<[1%positive := session true labelB labelA]>
       (<[2%positive := session false labelB labelA]> ∅))
    ∅ [].

Definition freshClock : Agent.Clock := Agent.mkClock 10 10 10.

(** A contact of ours, offline and without a pending request, whose
    agent is running; session 1 is our dial to it. *)
Definition worldOffline : Agent.World :=
  Agent.mkWorld
    (Agent.mkContact 1 (contactData labelB) Agent.Contact_OFFLINE true None true 0 true)
    (<[1%positive := session true labelA labelB]> ∅)
    ∅ [].

(** A rejected contact whose agent has not been started. *)
Definition worldRejected : Agent.World :=
  Agent.mkWorld
    (Agent.mkContact 1
       (Agent.mkConfigContact (labelB +:+ ".onion") "peer" EmptyString EmptyString
          (Agent.mkRequest true "me" "hello" EmptyString "2016-10-01T00:00:00Z" EmptyString))
       Agent.Contact_REJECTED false None false 0 false)
    ∅ ∅ [].

(** A contact with a pending outbound request that the peer has not
    answered, its agent running; session 1 is our dial to it. *)
Definition pendingData : Agent.ConfigContact :=
  Agent.mkConfigContact (labelB +:+ ".onion") "peer" EmptyString EmptyString
    (Agent.mkRequest true "me" "hello" EmptyString EmptyString EmptyString).

Definition worldPending : Agent.World :=
  Agent.mkWorld
    (Agent.mkContact 1 pendingData Agent.Contact_REQUEST true None true 0 false)
    (<[1%positive := session true labelA labelB]> ∅)
    (<["1" := pendingData]> ∅) [].

(** A clock reading printed as a fixed stamp. *)
Definition stampFormat : Z -> string := fun _ => "2016-10-01T00:00:00Z".

(** The world a call of [setConnection] leaves, for the examples. *)
Definition afterSetConnection (fmt : Z -> string) (w : Agent.World)
  (conn : Agent.connptr) (clk : Agent.Clock) : Agent.World :=
  match Agent.setConnection fmt w conn clk with
  | Returns (_, w') => w'
  | Panics => w
  end.

(** The world a run of the connection loop leaves, for the examples. *)
Definition afterLoop (fmt : Z -> string) (w : Agent.World)
  (inputs : list Agent.loopInput) (exitNow : Z) : Agent.World :=
  match Agent.contactConnection fmt w inputs exitNow with
  | Returns w' => w'
  | Panics => w
  end.

(** A network on which every step succeeds. *)
Definition openNetwork : Resolver.Network :=
  Resolver.mkNetwork (fun a => Some a) (fun _ => Some 1) true (fun _ => Some 2).

End Fixtures.

(** * Properties of the conversation backlog *)

Section ConversationFacts.
Import Conv.

Local Abbreviation unreadP := (fun m : Message => Status m = Message_UNREAD).

Ltac limits :=
  unfold backlogHardLimit, backlogSoftLimit, backlogContextNum in *.

Lemma is_unread_true m : is_unread m = true <-> Status m = Message_UNREAD.
Proof. unfold is_unread. apply bool_decide_eq_true. Qed.

Lemma is_unread_false m : is_unread m = false <-> Status m <> Message_UNREAD.
Proof. unfold is_unread. apply bool_decide_eq_false. Qed.

Lemma int_wrap_small z : - 2 ^ 63 <= z < 2 ^ 63 -> int_wrap z = z.
Proof.
  unfold int_wrap. change (2 ^ 64) with (2 * 2 ^ 63).
  generalize (2 ^ 63) (eq_refl : (0 <? 2 ^ 63) = true).
  intros k Hk%Z.ltb_lt Hz. rewrite Z.mod_small; lia.
Qed.

Lemma len_nonneg {A} (l : list A) : 0 <= len l.
Proof. unfold len. lia. Qed.

Lemma len_app {A} (l k : list A) : len (l ++ k) = len l + len k.
Proof. unfold len. rewrite length_app. lia. Qed.

Lemma len_drop {A} (l : list A) k :
  0 <= k <= len l -> len (drop (Z.to_nat k) l) = len l - k.
Proof. unfold len. intros Hk. rewrite length_drop. lia. Qed.

Lemma unread_count_bounds ms : 0 <= unread_count ms <= len ms.
Proof.
  unfold unread_count, len.
  pose proof (length_filter unreadP ms). lia.
Qed.

Lemma unread_count_cons m ms :
  unread_count (m :: ms) = (if is_unread m then 1 else 0) + unread_count ms.
Proof.
  unfold unread_count, len. rewrite filter_cons.
  destruct (decide (Status m = Message_UNREAD)) as [Hm | Hm].
  - apply is_unread_true in Hm. rewrite Hm. simpl length. lia.
  - apply is_unread_false in Hm. rewrite Hm. lia.
Qed.

Lemma unread_count_app ms ks :
  unread_count (ms ++ ks) = unread_count ms + unread_count ks.
Proof. unfold unread_count. rewrite filter_app. apply len_app. Qed.

(** The recount loop adds the number of UNREAD messages to its
    accumulator as long as the counter stays in range. *)
Lemma recount_loop_count ms n :
  0 <= n -> n + len ms < 2 ^ 63 ->
  recount_loop ms n = n + unread_count ms.
Proof.
  revert n. induction ms as [| m ms IH]; intros n Hn Hb.
  - simpl. unfold unread_count, len. simpl. lia.
  - simpl recount_loop. rewrite unread_count_cons.
    assert (Hl : len (m :: ms) = 1 + len ms) by (unfold len; simpl length; lia).
    pose proof (len_nonneg ms) as Hms.
    destruct (is_unread m).
    + unfold int_incr. rewrite int_wrap_small.
      * rewrite IH by lia. lia.
      * revert Hb. generalize (2 ^ 63). lia.
    + rewrite IH by lia. lia.
Qed.

(** The index the trimming loop settles on, in terms of the position of
    the oldest UNREAD message. *)
Lemma findKeepIndex_spec n ms i :
  0 <= i -> i <= n - backlogSoftLimit -> n = i + len ms ->
  findKeepIndex n ms i =
    match list_find unreadP ms with
    | Some (j, _) =>
        if i + Z.of_nat j <=? n - backlogSoftLimit
        then Z.max (i + Z.of_nat j - backlogContextNum) 0
        else n - backlogSoftLimit
    | None => n - backlogSoftLimit
    end.
Proof.
  unfold backlogSoftLimit, backlogContextNum.
  revert i. induction ms as [| m ms IH]; intros i Hi Hle Hn.
  - unfold len in Hn. simpl in Hn. lia.
  - assert (Hl : len (m :: ms) = 1 + len ms) by (unfold len; simpl length; lia).
    simpl findKeepIndex. cbn [list_find].
    unfold backlogSoftLimit, backlogContextNum.
    destruct (decide (Status m = Message_UNREAD)) as [Hm | Hm].
    + apply is_unread_true in Hm. rewrite Hm.
      replace (i + Z.of_nat 0) with i by lia.
      destruct (Z.leb_spec i (n - 100)); [| lia].
      destruct (Z.ltb_spec (i - 3) 0); lia.
    + apply is_unread_false in Hm. rewrite Hm.
      destruct (Z.leb_spec (n - i) 100) as [Hlast | Hmore].
      * destruct (list_find unreadP ms) as [[j x] |]; simpl; [| lia].
        destruct (Z.leb_spec (i + Z.of_nat (S j)) (n - 100)); lia.
      * rewrite IH by lia.
        destruct (list_find unreadP ms) as [[j x] |]; simpl; [| lia].
        replace (i + 1 + Z.of_nat j) with (i + Z.of_nat (S j)) by lia.
        reflexivity.
Qed.

Lemma filter_drop_clean (ms : list Message) k :
  Forall (fun m => Status m <> Message_UNREAD) (take k ms) ->
  filter unreadP (drop k ms) = filter unreadP ms.
Proof.
  intros Hclean. rewrite <- (take_drop k ms) at 2. rewrite filter_app.
  replace (filter unreadP (take k ms)) with (@nil Message); [reflexivity |].
  symmetry. induction Hclean as [| m l Hm _ IH]; [reflexivity |].
  rewrite filter_cons_False by exact Hm. exact IH.
Qed.

Lemma take_before_first_unread (ms : list Message) u x k :
  list_find unreadP ms = Some (u, x) -> (k <= u)%nat ->
  Forall (fun m => Status m <> Message_UNREAD) (take k ms).
Proof.
  intros (_ & _ & Hleast)%list_find_Some Hk.
  apply Forall_lookup. intros j y Hj.
  apply lookup_take_Some in Hj as [Hj Hlt].
  apply (Hleast j y Hj). lia.
Qed.

Lemma take_no_unread (ms : list Message) k :
  list_find unreadP ms = None ->
  Forall (fun m => Status m <> Message_UNREAD) (take k ms).
Proof. intros Hnone%list_find_None. by apply Forall_take. Qed.

(** The soft-limit step: which prefix it drops. *)
Lemma trimSoft_messages c :
  backlogSoftLimit < len (messages c) ->
  messages (trimSoft c) =
    drop (Z.to_nat
            match list_find unreadP (messages c) with
            | Some (u, _) =>
                if Z.of_nat u <=? len (messages c) - backlogSoftLimit
                then Z.max (Z.of_nat u - backlogContextNum) 0
                else len (messages c) - backlogSoftLimit
            | None => len (messages c) - backlogSoftLimit
            end) (messages c).
Proof.
  intros Hlen. unfold trimSoft.
  destruct (Z.leb_spec (len (messages c)) backlogSoftLimit); [lia |].
  cbn [messages set_messages].
  rewrite (findKeepIndex_spec (len (messages c)) (messages c) 0) by lia.
  destruct (list_find unreadP (messages c)) as [[u x] |]; reflexivity.
Qed.

Lemma trimSoft_small c :
  len (messages c) <= backlogSoftLimit -> trimSoft c = c.
Proof.
  intros Hlen. unfold trimSoft.
  destruct (Z.leb_spec (len (messages c)) backlogSoftLimit); [reflexivity | lia].
Qed.

Lemma trimSoft_numUnread c : numUnread (trimSoft c) = numUnread c.
Proof.
  unfold trimSoft. destruct (len (messages c) <=? backlogSoftLimit); reflexivity.
Qed.

(** The soft-limit step drops a prefix free of UNREAD messages, of at
    most [len - 100] messages. *)
Lemma trimSoft_drop c :
  exists k : Z,
    0 <= k <= Z.max 0 (len (messages c) - backlogSoftLimit) /\
    messages (trimSoft c) = drop (Z.to_nat k) (messages c) /\
    Forall (fun m => Status m <> Message_UNREAD) (take (Z.to_nat k) (messages c)) /\
    (backlogSoftLimit < len (messages c) ->
     list_find unreadP (messages c) = None ->
     k = len (messages c) - backlogSoftLimit).
Proof.
  destruct (Z.le_gt_cases (len (messages c)) backlogSoftLimit) as [Hsmall | Hbig].
  - exists 0. rewrite trimSoft_small by exact Hsmall.
    split; [lia |]. split; [reflexivity |]. split; [constructor | lia].
  - rewrite trimSoft_messages by lia.
    unfold backlogSoftLimit, backlogContextNum in *.
    destruct (list_find unreadP (messages c)) as [[u x] |] eqn:Hfind.
    + pose proof Hfind as (Hu%lookup_lt_Some & _)%list_find_Some.
      destruct (Z.leb_spec (Z.of_nat u) (len (messages c) - 100)) as [Hin | Hout].
      * exists (Z.max (Z.of_nat u - 3) 0).
        split; [lia |]. split; [reflexivity |]. split; [| discriminate].
        eapply take_before_first_unread; [exact Hfind | lia].
      * exists (len (messages c) - 100).
        split; [lia |]. split; [reflexivity |]. split; [| discriminate].
        eapply take_before_first_unread; [exact Hfind | lia].
    + exists (len (messages c) - 100).
      split; [lia |]. split; [reflexivity |]. split; [| reflexivity].
      by apply take_no_unread.
Qed.

Lemma trimSoft_unread c :
  filter unreadP (messages (trimSoft c)) = filter unreadP (messages c).
Proof.
  destruct (trimSoft_drop c) as (k & _ & -> & Hclean & _).
  by apply filter_drop_clean.
Qed.

(** The hard-limit step. *)
Lemma trimHard_messages c :
  messages (trimHard c) =
    drop (Z.to_nat (len (messages c) - backlogHardLimit)) (messages c).
Proof.
  unfold trimHard.
  destruct (Z.ltb_spec backlogHardLimit (len (messages c))) as [Hbig | Hsmall].
  - reflexivity.
  - replace (Z.to_nat (len (messages c) - backlogHardLimit)) with O by lia.
    reflexivity.
Qed.

Lemma trimHard_small c :
  len (messages c) <= backlogHardLimit -> trimHard c = c.
Proof.
  intros Hlen. unfold trimHard.
  destruct (Z.ltb_spec backlogHardLimit (len (messages c))); [lia | reflexivity].
Qed.

Lemma trimHard_len c :
  len (messages (trimHard c)) = Z.min (len (messages c)) backlogHardLimit.
Proof.
  rewrite trimHard_messages. pose proof (len_nonneg (messages c)).
  unfold backlogHardLimit in *.
  destruct (Z.le_gt_cases (len (messages c)) 200).
  - replace (Z.to_nat (len (messages c) - 200)) with O by lia.
    rewrite drop_0. lia.
  - rewrite len_drop by lia. lia.
Qed.

Lemma trimHard_recount c :
  backlogHardLimit < len (messages c) ->
  numUnread (trimHard c) = unread_count (messages (trimHard c)).
Proof.
  intros Hbig. pose proof (trimHard_len c) as Hlen. revert Hlen.
  unfold trimHard. destruct (Z.ltb_spec backlogHardLimit (len (messages c))); [| lia].
  cbn [recountUnread messages set_messages set_numUnread numUnread].
  intros Hlen. rewrite recount_loop_count; [lia | lia |].
  rewrite Hlen. unfold backlogHardLimit. clear. 
  assert (Z.min (len (messages c)) 200 <= 200) by lia.
  assert (200 < 2 ^ 63) by reflexivity. lia.
Qed.

Lemma validateMessage_Sender c msg :
  validateMessage c msg = None -> exists s, Sender msg = Some s.
Proof.
  unfold validateMessage. destruct (Sender msg) as [s |]; [eauto | discriminate].
Qed.

Lemma AddMessage_valid backend c msg populating :
  validateMessage c msg = None ->
  exists out,
    AddMessage backend c msg populating = Returns (trimBacklog (appended c msg), out).
Proof.
  intros Hv. destruct (validateMessage_Sender c msg Hv) as [s Hs].
  unfold AddMessage. rewrite Hv. fold (appended c msg).
  set (c3 := trimBacklog (appended c msg)).
  destruct populating; [eauto |].
  unfold printMessage. rewrite Hs.
  assert (Hprint : exists out1,
    (if negb (active c3)
     then if IsSelf s then Returns [] else Returns [ENotifyUnread (numUnread c3)]
     else Returns [EPrintLine msg]) = Returns out1).
  { destruct (active c3), (IsSelf s); simpl; eauto. }
  destruct Hprint as [out1 ->].
  destruct (active c3); [| eauto].
  unfold MarkAsReadBefore.
  destruct (validateMessage c3 msg); [eauto |].
  rewrite Hs. destruct (IsSelf s); [eauto |].
  destruct (backend _); eauto.
Qed.

Lemma messages_appended c msg : messages (appended c msg) = messages c ++ [msg].
Proof. unfold appended. destruct (is_unread msg); reflexivity. Qed.

Lemma trimBacklog_messages_small c :
  len (messages c) <= backlogHardLimit ->
  messages (trimBacklog c) = messages (trimSoft c).
Proof. intros Hlen. unfold trimBacklog. by rewrite trimHard_small. Qed.

Lemma filter_unread_nil (ms : list Message) :
  list_find unreadP ms = None -> filter unreadP ms = [].
Proof.
  intros Hnone%list_find_None.
  induction Hnone as [| m l Hm _ IH]; [reflexivity |].
  by rewrite filter_cons_False.
Qed.

Lemma list_find_unread_nil (ms : list Message) :
  filter unreadP ms = [] -> list_find unreadP ms = None.
Proof.
  intros Hnil. apply list_find_None, Forall_forall. intros m Hin Hm.
  by apply (filter_nil_not_elem_of unreadP ms m).
Qed.

(** The unread counter survives trimming: the soft step drops no UNREAD
    message and the hard step recounts. *)
Lemma trimBacklog_counter c :
  numUnread c = unread_count (messages c) ->
  numUnread (trimBacklog c) = unread_count (messages (trimBacklog c)).
Proof.
  intros Hinv. unfold trimBacklog. rewrite trimSoft_numUnread.
  unfold unread_count at 1. rewrite trimSoft_unread. fold (unread_count (messages (trimHard c))).
  destruct (Z.le_gt_cases (len (messages c)) backlogHardLimit) as [Hsmall | Hbig].
  - by rewrite trimHard_small.
  - by apply trimHard_recount.
Qed.

(** C2 (amended). For a backlog of length [N] with [100 < N <= 200]
    whose oldest UNREAD message is at index [u], trimming removes
    exactly the messages before index [min (N - 100) (max (u - 3) 0)]
    whenever [u <= N - 100] or [N - 100 <= u - 3]: the backlog is cut
    down to the soft limit of 100 unless that would drop the oldest
    UNREAD message or its three messages of context. In particular,
    appending one message to a backlog of 100 whose oldest UNREAD
    message is at index 50 leaves the messages from index 1 onward. *)
Theorem trimBacklog_soft_keep :
  (forall c (u : nat) x,
      backlogSoftLimit < len (messages c) <= backlogHardLimit ->
      list_find unreadP (messages c) = Some (u, x) ->
      Z.of_nat u <= len (messages c) - backlogSoftLimit \/
      len (messages c) - backlogSoftLimit <= Z.of_nat u - backlogContextNum ->
      messages (trimBacklog c) =
        drop (Z.to_nat (Z.min (len (messages c) - backlogSoftLimit)
                              (Z.max (Z.of_nat u - backlogContextNum) 0)))
             (messages c)) /\
  (forall backend c msg populating x,
      len (messages c) = 100 ->
      list_find unreadP (messages c) = Some (50%nat, x) ->
      validateMessage c msg = None ->
      exists c' out,
        AddMessage backend c msg populating = Returns (c', out) /\
        messages c' = drop 1 (messages c ++ [msg])).
Proof.
  assert (Hgen : forall c (u : nat) x,
      backlogSoftLimit < len (messages c) <= backlogHardLimit ->
      list_find unreadP (messages c) = Some (u, x) ->
      Z.of_nat u <= len (messages c) - backlogSoftLimit \/
      len (messages c) - backlogSoftLimit <= Z.of_nat u - backlogContextNum ->
      messages (trimBacklog c) =
        drop (Z.to_nat (Z.min (len (messages c) - backlogSoftLimit)
                              (Z.max (Z.of_nat u - backlogContextNum) 0)))
             (messages c)).
  { intros c u x [Hlo Hhi] Hfind Hrange.
    rewrite trimBacklog_messages_small by lia.
    rewrite trimSoft_messages by lia. rewrite Hfind.
    unfold backlogSoftLimit, backlogContextNum in *.
    destruct (Z.leb_spec (Z.of_nat u) (len (messages c) - 100)); f_equal; lia. }
  split; [exact Hgen |].
  intros backend c msg populating x Hlen Hfind Hv.
  destruct (AddMessage_valid backend c msg populating Hv) as [out Hadd].
  exists (trimBacklog (appended c msg)), out. split; [exact Hadd |].
  assert (Hlen' : len (messages (appended c msg)) = 101).
  { rewrite messages_appended, len_app, Hlen. reflexivity. }
  rewrite (Hgen (appended c msg) 50%nat x).
  - rewrite Hlen', messages_appended. reflexivity.
  - rewrite Hlen'. unfold backlogSoftLimit, backlogHardLimit. lia.
  - rewrite messages_appended. by apply list_find_app_l.
  - rewrite Hlen'. unfold backlogSoftLimit, backlogContextNum. lia.
Qed.

Lemma trimBacklog_soft_keep_witness :
  messages (trimBacklog Fixtures.conv150) = drop 7 (messages Fixtures.conv150) /\
  exists c' out,
    AddMessage Fixtures.okBackend Fixtures.conv100
      (Fixtures.outbound 9 Message_DELIVERED "reply") false = Returns (c', out) /\
    messages c' =
      drop 1 (messages Fixtures.conv100 ++ [Fixtures.outbound 9 Message_DELIVERED "reply"]).
Proof.
  split.
  - apply (proj1 trimBacklog_soft_keep Fixtures.conv150 10%nat
             (Fixtures.inbound 2 Message_UNREAD "new")).
    + split; vm_compute; [reflexivity | discriminate].
    + vm_compute. reflexivity.
    + left. vm_compute. discriminate.
  - apply (proj2 trimBacklog_soft_keep Fixtures.okBackend Fixtures.conv100
             (Fixtures.outbound 9 Message_DELIVERED "reply") false
             (Fixtures.inbound 2 Message_UNREAD "new")).
    + vm_compute. reflexivity.
    + vm_compute. reflexivity.
    + vm_compute. reflexivity.
Defined.

(** C2 as claimed fails: after one append to the backlog of 100 whose
    only UNREAD message is at index 50, the backlog holds the 100
    messages from index 1 onward, not the 54 from index 47 onward. *)
Lemma trimBacklog_unread50_counterexample :
  let appendedTo := messages Fixtures.conv100 ++ [Fixtures.outbound 9 Message_DELIVERED "reply"] in
  exists c' out,
    AddMessage Fixtures.okBackend Fixtures.conv100
      (Fixtures.outbound 9 Message_DELIVERED "reply") false = Returns (c', out) /\
    list_find unreadP appendedTo
      = Some (50%nat, Fixtures.inbound 2 Message_UNREAD "new") /\
    unread_count (messages Fixtures.conv100) = 1 /\
    len appendedTo = 101 /\
    messages c' = drop 1 appendedTo /\
    messages c' <> drop (Z.to_nat (Z.max (50 - 3) 0)) appendedTo.
Proof.
  intros appendedTo. eexists. eexists.
  split; [vm_compute; reflexivity |].
  split; [vm_compute; reflexivity |].
  split; [vm_compute; reflexivity |].
  split; [vm_compute; reflexivity |].
  split; [vm_compute; reflexivity |].
  intros Heq. apply (f_equal length) in Heq. vm_compute in Heq. discriminate.
Qed.

(** C3 (amended). Trimming removes an UNREAD message only when it is
    among the oldest [N - 200] messages of a backlog longer than the
    hard limit: the UNREAD messages left are those of the newest 200,
    and a backlog of at most 200 messages loses no UNREAD message. *)
Theorem trimBacklog_unread_kept c :
  filter unreadP (messages (trimBacklog c)) =
    filter unreadP (drop (Z.to_nat (len (messages c) - backlogHardLimit)) (messages c)) /\
  (len (messages c) <= backlogHardLimit ->
   filter unreadP (messages (trimBacklog c)) = filter unreadP (messages c)).
Proof.
  assert (Hall : filter unreadP (messages (trimBacklog c)) =
    filter unreadP (drop (Z.to_nat (len (messages c) - backlogHardLimit)) (messages c))).
  { unfold trimBacklog. by rewrite trimSoft_unread, trimHard_messages. }
  split; [exact Hall |].
  intros Hsmall. rewrite Hall.
  replace (Z.to_nat (len (messages c) - backlogHardLimit)) with O by lia.
  reflexivity.
Qed.

Lemma trimBacklog_unread_kept_witness :
  filter unreadP (messages (trimBacklog Fixtures.conv150)) =
    filter unreadP (messages Fixtures.conv150).
Proof.
  apply (proj2 (trimBacklog_unread_kept Fixtures.conv150)).
  vm_compute. discriminate.
Defined.

(** C3 as claimed fails above the hard limit: the backlog of 201 whose
    oldest message is UNREAD has no UNREAD message left after trimming. *)
Lemma trimBacklog_hard_drops_unread_counterexample :
  len (messages Fixtures.conv201) = 201 /\
  filter unreadP (messages Fixtures.conv201)
    = [Fixtures.inbound 1 Message_UNREAD "first"] /\
  filter unreadP (messages (trimBacklog Fixtures.conv201)) = [] /\
  filter unreadP (messages (trimBacklog Fixtures.conv201))
    <> filter unreadP (messages Fixtures.conv201).
Proof.
  split; [vm_compute; reflexivity |].
  split; [vm_compute; reflexivity |].
  split; [vm_compute; reflexivity |].
  vm_compute. discriminate.
Qed.

(** C8 (amended). After trimming, and so after every append followed by
    trimming, the backlog holds at most 200 messages. For a pre-trim
    length [N > 200] the trim first discards the oldest [N - 200]
    messages unconditionally and recounts the unread total, and then
    applies the soft-limit step to the 200 that remain, which discards
    up to 100 further messages, none of them UNREAD; the counter equals
    the number of UNREAD messages left. A trimmed backlog without any
    UNREAD message holds at most 100 messages. *)
Theorem trimBacklog_limits c :
  len (messages (trimBacklog c)) <= backlogHardLimit /\
  (backlogHardLimit < len (messages c) ->
   exists k : Z,
     0 <= k <= backlogHardLimit - backlogSoftLimit /\
     messages (trimBacklog c) =
       drop (Z.to_nat (len (messages c) - backlogHardLimit + k)) (messages c) /\
     Forall (fun m => Status m <> Message_UNREAD)
       (take (Z.to_nat k)
          (drop (Z.to_nat (len (messages c) - backlogHardLimit)) (messages c))) /\
     numUnread (trimBacklog c) = unread_count (messages (trimBacklog c))) /\
  (list_find unreadP (messages (trimBacklog c)) = None ->
   len (messages (trimBacklog c)) <= backlogSoftLimit) /\
  (forall backend msg populating,
      validateMessage c msg = None ->
      exists c' out,
        AddMessage backend c msg populating = Returns (c', out) /\
        len (messages c') <= backlogHardLimit /\
        (list_find unreadP (messages c') = None ->
         len (messages c') <= backlogSoftLimit)).
Proof.
  assert (Hhard : forall d, len (messages (trimBacklog d)) <= backlogHardLimit).
  { intros d. unfold trimBacklog.
    destruct (trimSoft_drop (trimHard d)) as (k & Hk & -> & _).
    pose proof (trimHard_len d) as Hlen. pose proof (len_nonneg (messages (trimHard d))).
    limits. rewrite len_drop by lia. lia. }
  assert (Hsoft : forall d, list_find unreadP (messages (trimBacklog d)) = None ->
                            len (messages (trimBacklog d)) <= backlogSoftLimit).
  { intros d Hnone. unfold trimBacklog in *.
    destruct (Z.le_gt_cases (len (messages (trimHard d))) backlogSoftLimit) as [Hs | Hb].
    - by rewrite trimSoft_small.
    - apply filter_unread_nil in Hnone. rewrite trimSoft_unread in Hnone.
      apply list_find_unread_nil in Hnone.
      destruct (trimSoft_drop (trimHard d)) as (k & Hk & -> & _ & Hk').
      rewrite (Hk' Hb Hnone). limits. rewrite len_drop by lia. lia. }
  split; [apply Hhard |]. split; [| split; [apply Hsoft |]].
  - intros Hbig. unfold trimBacklog.
    destruct (trimSoft_drop (trimHard c)) as (k & Hk & Hdrop & Hclean & _).
    pose proof (trimHard_len c) as Hlen.
    exists k. split; [limits; lia |].
    split; [| split].
    + rewrite Hdrop, trimHard_messages, drop_drop. f_equal. limits. lia.
    + by rewrite <- trimHard_messages.
    + rewrite trimSoft_numUnread. unfold unread_count at 1.
      rewrite trimSoft_unread. by apply trimHard_recount.
  - intros backend msg populating Hv.
    destruct (AddMessage_valid backend c msg populating Hv) as [out Hadd].
    exists (trimBacklog (appended c msg)), out. split; [exact Hadd |].
    split; [apply Hhard | apply Hsoft].
Qed.

Lemma trimBacklog_limits_witness :
  (exists k : Z,
     0 <= k <= backlogHardLimit - backlogSoftLimit /\
     messages (trimBacklog Fixtures.conv201) =
       drop (Z.to_nat (len (messages Fixtures.conv201) - backlogHardLimit + k))
            (messages Fixtures.conv201) /\
     Forall (fun m => Status m <> Message_UNREAD)
       (take (Z.to_nat k)
          (drop (Z.to_nat (len (messages Fixtures.conv201) - backlogHardLimit))
                (messages Fixtures.conv201))) /\
     numUnread (trimBacklog Fixtures.conv201)
       = unread_count (messages (trimBacklog Fixtures.conv201))) /\
  len (messages (trimBacklog Fixtures.conv201)) <= backlogSoftLimit.
Proof.
  split.
  - apply (proj1 (proj2 (trimBacklog_limits Fixtures.conv201))).
    vm_compute. reflexivity.
  - apply (proj1 (proj2 (proj2 (trimBacklog_limits Fixtures.conv201)))).
    vm_compute. reflexivity.
Defined.

(** C8 as claimed fails: trimming the backlog of 201 READ messages does
    not stop at discarding the oldest one; 100 messages are left. *)
Lemma trimBacklog_hard_then_soft_counterexample :
  len (messages Fixtures.conv201read) = 201 /\
  len (messages (trimBacklog Fixtures.conv201read)) = 100 /\
  messages (trimBacklog Fixtures.conv201read)
    <> drop (Z.to_nat (201 - backlogHardLimit)) (messages Fixtures.conv201read).
Proof.
  split; [vm_compute; reflexivity |].
  split; [vm_compute; reflexivity |].
  intros Heq. apply (f_equal length) in Heq. vm_compute in Heq. discriminate.
Qed.

(** The counter is right after [AddMessage]. *)
Lemma appended_counter c msg :
  len (messages c) < 2 ^ 63 - 1 ->
  numUnread c = unread_count (messages c) ->
  numUnread (appended c msg) = unread_count (messages (appended c msg)).
Proof.
  intros Hlen Hinv. rewrite messages_appended, unread_count_app.
  pose proof (unread_count_bounds (messages c)) as Hb.
  unfold appended. rewrite (unread_count_cons msg []).
  change (unread_count []) with 0.
  destruct (is_unread msg); cbn [numUnread set_numUnread set_messages].
  - unfold int_incr. rewrite int_wrap_small; [lia |].
    revert Hlen. generalize (2 ^ 63). lia.
  - lia.
Qed.

Lemma AddMessage_counter backend c msg populating c' out :
  len (messages c) < 2 ^ 63 - 1 ->
  numUnread c = unread_count (messages c) ->
  AddMessage backend c msg populating = Returns (c', out) ->
  numUnread c' = unread_count (messages c').
Proof.
  intros Hlen Hinv Hadd.
  destruct (validateMessage c msg) as [err |] eqn:Hv.
  - unfold AddMessage in Hadd. rewrite Hv in Hadd. congruence.
  - destruct (AddMessage_valid backend c msg populating Hv) as [out' Hadd'].
    rewrite Hadd' in Hadd. injection Hadd as <- _.
    by apply trimBacklog_counter, appended_counter.
Qed.

Lemma unread_count_insert ms (j : nat) msg updatedMsg :
  ms !! j = Some msg ->
  unread_count (<[j := updatedMsg]> ms) =
    unread_count ms - (if is_unread msg then 1 else 0)
                    + (if is_unread updatedMsg then 1 else 0).
Proof.
  intros Hj. pose proof (lookup_lt_Some _ _ _ Hj) as Hlt.
  rewrite insert_take_drop by exact Hlt.
  rewrite <- (take_drop_middle ms j msg Hj) at 3.
  rewrite !unread_count_app, !unread_count_cons. lia.
Qed.

(** [UpdateMessage] keeps the counter right when the new status is not
    UNREAD. *)
Lemma updateLoop_counter c updatedMsg updSelf i c' out :
  len (messages c) < 2 ^ 63 ->
  numUnread c = unread_count (messages c) ->
  Status updatedMsg <> Message_UNREAD ->
  updateLoop c updatedMsg updSelf i = Returns (c', out) ->
  numUnread c' = unread_count (messages c').
Proof.
  intros Hlen Hinv Hst%is_unread_false.
  induction i as [| j IH]; cbn [updateLoop].
  - by intros [= <- _].
  - destruct (messages c !! j) as [msg |] eqn:Hj; [| discriminate].
    destruct (Sender msg) as [sender |]; [| discriminate].
    destruct (negb (Bool.eqb (IsSelf sender) updSelf)
              || negb (Identifier msg =? Identifier updatedMsg)); [exact IH |].
    intros [= <- _]. rewrite Hst, andb_true_r.
    pose proof (unread_count_insert (messages c) j msg updatedMsg Hj) as Hcount.
    rewrite Hst in Hcount.
    pose proof (unread_count_bounds (messages c)) as Hb.
    assert (Hone : is_unread msg = true -> 1 <= unread_count (messages c)).
    { intros Hm. rewrite <- (take_drop_middle (messages c) j msg Hj).
      rewrite unread_count_app, unread_count_cons, Hm.
      pose proof (unread_count_bounds (take j (messages c))).
      pose proof (unread_count_bounds (drop (S j) (messages c))). lia. }
    destruct (is_unread msg); cbn [numUnread messages set_numUnread set_messages].
    + rewrite Hcount, Hinv. unfold int_decr. rewrite int_wrap_small; [lia |].
      specialize (Hone eq_refl). revert Hlen. generalize (2 ^ 63). lia.
    + rewrite Hcount, Hinv. lia.
Qed.

Lemma UpdateMessage_counter c updatedMsg c' out :
  len (messages c) < 2 ^ 63 ->
  numUnread c = unread_count (messages c) ->
  Status updatedMsg <> Message_UNREAD ->
  UpdateMessage c updatedMsg = Returns (c', out) ->
  numUnread c' = unread_count (messages c').
Proof.
  intros Hlen Hinv Hst. unfold UpdateMessage.
  destruct (validateMessage c updatedMsg); [by intros [= <- _] |].
  destruct (Sender updatedMsg) as [s |]; [| discriminate].
  by apply updateLoop_counter.
Qed.

(** C4. The counter is stale after [UpdateMessage] replaces a READ
    message by an UNREAD one: the backlog then holds one UNREAD message
    and the counter still says none. *)
Theorem UpdateMessage_unread_not_counted :
  numUnread Fixtures.convRead = unread_count (messages Fixtures.convRead) /\
  validateMessage Fixtures.convRead (Fixtures.inbound 7 Message_UNREAD "hello") = None /\
  exists c',
    UpdateMessage Fixtures.convRead (Fixtures.inbound 7 Message_UNREAD "hello")
      = Returns (c', []) /\
    messages c' = [Fixtures.inbound 7 Message_UNREAD "hello"] /\
    unread_count (messages c') = 1 /\
    numUnread c' = 0.
Proof.
  split; [vm_compute; reflexivity |].
  split; [vm_compute; reflexivity |].
  eexists. split; [vm_compute; reflexivity |].
  split; [reflexivity |]. split; vm_compute; reflexivity.
Qed.

(** C9. For a message that is otherwise valid for its conversation
    (both entities present, the self side marked as self with an empty
    address or the identity's, the remote side not self and carrying
    the contact's address, a status other than NULL), validation
    accepts exactly the texts of length 1 to 2000: lengths 1 and 2000
    are accepted, lengths 0 and 2001 are rejected with an error. *)
Theorem validateMessage_text_bounds c msg s r :
  Sender msg = Some s ->
  Recipient msg = Some r ->
  IsSelf (if IsSelf s then s else r) = true ->
  (Address (if IsSelf s then s else r) = EmptyString \/
   Address (if IsSelf s then s else r) = identityAddress c) ->
  IsSelf (if IsSelf s then r else s) = false ->
  Address (if IsSelf s then r else s) = contactAddress c ->
  Status msg <> Message_NULL ->
  (validateMessage c msg = None <-> 1 <= strlen (Text msg) <= 2000) /\
  (strlen (Text msg) = 1 -> validateMessage c msg = None) /\
  (strlen (Text msg) = 2000 -> validateMessage c msg = None) /\
  (strlen (Text msg) = 0 -> validateMessage c msg = Some ErrTextUnacceptable) /\
  (strlen (Text msg) = 2001 -> validateMessage c msg = Some ErrTextUnacceptable).
Proof.
  intros Hs Hr Hself Haddr Hremote Hraddr Hstatus.
  assert (Hval : validateMessage c msg =
    if (strlen (Text msg) =? 0) || (maxMessageTextLength <? strlen (Text msg))
    then Some ErrTextUnacceptable else None).
  { unfold validateMessage. rewrite Hs, Hr. rewrite Hself, Hremote. cbn [negb orb].
    replace ((0 <? strlen (Address (if IsSelf s then s else r))) &&
             negb (String.eqb (Address (if IsSelf s then s else r)) (identityAddress c)))
      with false.
    - rewrite Hraddr, String.eqb_refl. cbn [negb].
      rewrite bool_decide_eq_false_2 by exact Hstatus. reflexivity.
    - destruct Haddr as [-> | ->]; [reflexivity |].
      rewrite String.eqb_refl. cbn [negb]. by rewrite andb_false_r. }
  rewrite Hval. unfold maxMessageTextLength.
  assert (0 <= strlen (Text msg)) by (unfold strlen; lia).
  destruct (Z.eqb_spec (strlen (Text msg)) 0) as [H0 | H0];
    destruct (Z.ltb_spec 2000 (strlen (Text msg))) as [H2 | H2]; cbn [orb];
    (split; [split; [try discriminate; try lia; reflexivity | try lia; reflexivity] |]);
    repeat split; intros; try reflexivity; lia.
Qed.

Lemma validateMessage_text_bounds_witness :
  validateMessage Fixtures.convRead (Fixtures.inbound 1 Message_UNREAD "a") = None.
Proof.
  apply (proj1 (proj2 (validateMessage_text_bounds Fixtures.convRead
           (Fixtures.inbound 1 Message_UNREAD "a")
           Fixtures.peerEntity Fixtures.selfEntity
           eq_refl eq_refl eq_refl (or_intror eq_refl) eq_refl eq_refl
           ltac:(discriminate)))).
  reflexivity.
Defined.

Example validateMessage_boundary_texts :
  validateMessage Fixtures.convRead
    (Fixtures.inbound 1 Message_UNREAD (Fixtures.textOfLength 0)) = Some ErrTextUnacceptable /\
  validateMessage Fixtures.convRead
    (Fixtures.inbound 1 Message_UNREAD (Fixtures.textOfLength 1)) = None /\
  validateMessage Fixtures.convRead
    (Fixtures.outbound 1 Message_SENT (Fixtures.textOfLength 2000)) = None /\
  validateMessage Fixtures.convRead
    (Fixtures.outbound 1 Message_SENT (Fixtures.textOfLength 2001)) = Some ErrTextUnacceptable.
Proof. repeat split; vm_compute; reflexivity. Qed.

(** The scan of [MarkAsRead] passes over the messages that are neither
    UNREAD nor READ. *)
Lemma findMessageId_skip (pre post : list Message) k :
  Forall (fun m => Status m <> Message_UNREAD /\ Status m <> Message_READ) post ->
  (k <= length post)%nat ->
  findMessageId (pre ++ post) (length pre + k) = findMessageId (pre ++ post) (length pre).
Proof.
  intros Hskip. induction k as [| k IH]; intros Hk.
  - by rewrite Nat.add_0_r.
  - rewrite Nat.add_succ_r. cbn [findMessageId].
    rewrite lookup_app_r by lia.
    replace (length pre + k - length pre)%nat with k by lia.
    destruct (lookup_lt_is_Some_2 post k) as [m Hm]; [lia |].
    rewrite Hm.
    destruct (proj1 (Forall_lookup _ _) Hskip k m Hm) as [Hu Hrd].
    rewrite <- IH by lia.
    destruct (Status m); congruence.
Qed.

Lemma findMessageId_at (pre post : list Message) m :
  Forall (fun x => Status x <> Message_UNREAD /\ Status x <> Message_READ) post ->
  findMessageId (pre ++ m :: post) (length (pre ++ m :: post)) =
    match Status m with
    | Message_UNREAD => Some m
    | Message_READ => None
    | _ => findMessageId (pre ++ m :: post) (length pre)
    end.
Proof.
  intros Hskip.
  replace (pre ++ m :: post) with ((pre ++ [m]) ++ post) by (by rewrite <- app_assoc).
  rewrite (length_app (pre ++ [m]) post).
  rewrite findMessageId_skip by (exact Hskip || lia).
  rewrite length_app. cbn [length]. rewrite Nat.add_1_r. cbn [findMessageId].
  rewrite <- app_assoc. cbn [app]. rewrite list_lookup_middle by reflexivity.
  reflexivity.
Qed.

(** C6 (amended). [MarkAsRead] scans the backlog from newest to oldest,
    passing over every message whose status is neither UNREAD nor READ
    (a self-sent message in a state such as DELIVERED does not stop the
    scan), and stops at the first message that is UNREAD or READ. If
    that message is UNREAD the call is [MarkAsReadBefore] on it: when
    the message validates and is not self-sent, markConversationRead is
    dispatched with its sender and identifier and the backend's answer
    is returned. If that message is READ, or there is no UNREAD or READ
    message at all, nothing is dispatched and no error is returned. *)
Theorem MarkAsRead_scan backend c :
  (forall pre m post,
      messages c = pre ++ m :: post ->
      Forall (fun x => Status x <> Message_UNREAD /\ Status x <> Message_READ) post ->
      (Status m = Message_UNREAD ->
       MarkAsRead backend c = MarkAsReadBefore backend c m /\
       forall s, validateMessage c m = None -> Sender m = Some s -> IsSelf s = false ->
         exists more,
           MarkAsRead backend c =
             Returns (backend (mkMarkRead (Some s) (Identifier m)),
                      ERpcMarkConversationRead (mkMarkRead (Some s) (Identifier m)) :: more)) /\
      (Status m = Message_READ -> MarkAsRead backend c = Returns (None, []))) /\
  (Forall (fun x => Status x <> Message_UNREAD /\ Status x <> Message_READ) (messages c) ->
   MarkAsRead backend c = Returns (None, [])).
Proof.
  split.
  - intros pre m post Hms Hskip.
    assert (Hfind : findMessageId (messages c) (length (messages c)) =
      match Status m with
      | Message_UNREAD => Some m
      | Message_READ => None
      | _ => findMessageId (pre ++ m :: post) (length pre)
      end) by (rewrite Hms; by apply findMessageId_at).
    split.
    + intros Hu. rewrite Hu in Hfind.
      assert (Hcall : MarkAsRead backend c = MarkAsReadBefore backend c m)
        by (unfold MarkAsRead; by rewrite Hfind).
      split; [exact Hcall |].
      intros s Hv Hs Hself. rewrite Hcall. unfold MarkAsReadBefore.
      rewrite Hv, Hs, Hself.
      destruct (backend (mkMarkRead (Some s) (Identifier m))); eauto.
    + intros Hrd. rewrite Hrd in Hfind. unfold MarkAsRead. by rewrite Hfind.
  - intros Hskip. unfold MarkAsRead.
    pose proof (findMessageId_skip [] (messages c) (length (messages c)) Hskip
                  (Nat.le_refl _)) as Hnone.
    cbn [app length Nat.add findMessageId] in Hnone. by rewrite Hnone.
Qed.

Lemma MarkAsRead_scan_witness :
  exists more,
    MarkAsRead Fixtures.okBackend Fixtures.convReplied =
      Returns (None,
               ERpcMarkConversationRead (mkMarkRead (Some Fixtures.peerEntity) 7) :: more).
Proof.
  apply (proj2 (proj1 (proj1 (MarkAsRead_scan Fixtures.okBackend Fixtures.convReplied)
           [] (Fixtures.inbound 7 Message_UNREAD "hello")
           [Fixtures.outbound 8 Message_DELIVERED "hi"] eq_refl
           ltac:(repeat constructor; discriminate)) eq_refl)
         Fixtures.peerEntity eq_refl eq_refl eq_refl).
Defined.

(** C6 as claimed fails: with an UNREAD message from the peer followed
    by a delivered reply of ours, the claimed scan stops at the reply
    and dispatches nothing, while [MarkAsRead] passes over the reply and
    dispatches markConversationRead for the UNREAD message. *)
Lemma MarkAsRead_passes_self_counterexample :
  claimedMarkAsRead Fixtures.okBackend Fixtures.convReplied = Returns (None, []) /\
  MarkAsRead Fixtures.okBackend Fixtures.convReplied =
    Returns (None, [ERpcMarkConversationRead (mkMarkRead (Some Fixtures.peerEntity) 7)]) /\
  MarkAsRead Fixtures.okBackend Fixtures.convReplied
    <> claimedMarkAsRead Fixtures.okBackend Fixtures.convReplied.
Proof.
  split; [vm_compute; reflexivity |].
  split; [vm_compute; reflexivity |].
  vm_compute. discriminate.
Qed.

End ConversationFacts.

(** * Properties of the contact connection agent *)

Section AgentFacts.
Import Agent.

Variable formatRFC3339 : Z -> string.

Lemma Close_lookup_same h p oc :
  h !! p = Some oc -> Close p h !! p = Some (closeConn oc).
Proof. intros Hp. unfold Close. by rewrite lookup_alter_eq, Hp. Qed.

Lemma Close_lookup_other h p q :
  p <> q -> Close p h !! q = h !! q.
Proof. intros Hpq. unfold Close. by rewrite lookup_alter_ne. Qed.

(** On every error return of [setConnection] only the heap can differ,
    and it differs by the candidate being closed, except for the
    duplicate assignment, which changes nothing. *)
Lemma setConnection_error w conn clk e w' :
  setConnection formatRFC3339 w conn clk = Returns (Some e, w') ->
  (e = ErrDuplicateAssignment /\ connection (contact w) = Some conn /\ w' = w) \/
  (e <> ErrDuplicateAssignment /\ connection (contact w) <> Some conn /\
   w' = set_heap w (Close conn (heap w)) /\
   exists oc, heap w !! conn = Some oc).
Proof.
  unfold setConnection. intros Hset.
  destruct (heap w !! conn) as [oc |] eqn:Hoc; [| discriminate].
  case_bool_decide as Hdup.
  { left. injection Hset as <- <-. auto. }
  assert (Hne : connection (contact w) <> Some conn) by congruence.
  right.
  destruct (negb (IsAuthed oc) || Closed oc).
  { injection Hset as <- <-. split; [discriminate | eauto]. }
  destruct (label16 (Hostname (data (contact w)))) as [label |]; [| discriminate].
  destruct (negb (String.eqb label (OtherHostname oc))).
  { injection Hset as <- <-. split; [discriminate | eauto]. }
  destruct (Client oc && negb (outboundConnAuthKnown (contact w))
            && negb (Pending (Request (data (contact w))))).
  { injection Hset as <- <-. split; [discriminate | eauto]. }
  cbv beta zeta in Hset.
  destruct (connection (contact w)) as [cur |]; [| discriminate].
  destruct (shouldReplaceConnection (contact w) (heap w) conn (nowDuel clk))
    as [[|] |]; try discriminate.
  injection Hset as <- <-. split; [discriminate | eauto].
Qed.

(** C10. Whenever [setConnection] returns an error, the contact (its
    current connection, status and data among its fields), the saved
    configuration and the actions taken are unchanged. For the
    duplicate assignment the candidate is the current connection and
    the whole world, its closed flag included, is unchanged; for every
    other error the candidate is not the current connection, it is
    closed, and no other session is touched. The discard branch of the
    connection loop then finds nothing left to close. *)
Theorem setConnection_error_preserves w conn clk e w' :
  setConnection formatRFC3339 w conn clk = Returns (Some e, w') ->
  contact w' = contact w /\
  config w' = config w /\
  trace w' = trace w /\
  (e = ErrDuplicateAssignment ->
   connection (contact w') = Some conn /\ heap w' = heap w) /\
  (e <> ErrDuplicateAssignment ->
   connection (contact w') <> Some conn /\
   (exists oc, heap w' !! conn = Some oc /\ Closed oc = true) /\
   forall p, p <> conn -> heap w' !! p = heap w !! p) /\
  (forall w0,
      outboundCancel (fst (loopHead w0)) (snd (loopHead w0)) = w ->
      loopTurn formatRFC3339 w0 (InConn conn clk) = Returns (w', true)).
Proof.
  intros Hset.
  destruct (setConnection_error w conn clk e w' Hset)
    as [(-> & Hcur & ->) | (He & Hcur & -> & oc & Hoc)].
  - split; [reflexivity |]. split; [reflexivity |]. split; [reflexivity |].
    split; [auto |]. split; [congruence |].
    intros w0 Hw0. unfold loopTurn.
    destruct (loopHead w0) as [w1 spawned]. cbn [fst snd] in Hw0. rewrite Hw0, Hset.
    unfold setConnection in Hset.
    destruct (heap w !! conn) as [oc |]; [| discriminate].
    rewrite bool_decide_eq_true_2 by congruence.
    by rewrite andb_false_r.
  - split; [reflexivity |]. split; [reflexivity |]. split; [reflexivity |].
    split; [congruence |]. split.
    + intros _. split; [exact Hcur |]. split.
      * exists (closeConn oc). split; [| reflexivity].
        cbn [heap set_heap]. by apply Close_lookup_same.
      * intros p Hp. cbn [heap set_heap]. by apply Close_lookup_other.
    + intros w0 Hw0. unfold loopTurn.
      destruct (loopHead w0) as [w1 spawned]. cbn [fst snd] in Hw0. rewrite Hw0, Hset.
      cbn [heap set_heap]. rewrite (Close_lookup_same _ _ _ Hoc).
      reflexivity.
Qed.

Lemma ltb_asym (a b : string) : String.ltb a b = true -> String.ltb b a = false.
Proof.
  unfold String.ltb. rewrite (String.compare_antisym b a).
  destruct (String.compare a b); simpl; congruence.
Qed.

(** The verdict of [shouldReplaceConnection] in a duel. *)
Lemma shouldReplaceConnection_duel w cur conn now my peer :
  duel w cur conn now my peer ->
  exists new,
    heap w !! conn = Some new /\
    shouldReplaceConnection (contact w) (heap w) conn now
      = Returns (Bool.eqb (String.ltb my peer) (Client new)).
Proof.
  intros (old & new & Hcur & _ & Hold & Hnew & Hopen & _ & _ & Hdir & Hmy & Hpeer
          & _ & _ & Hfresh).
  exists new. split; [exact Hnew |].
  unfold shouldReplaceConnection. rewrite Hcur, Hold, Hnew, Hopen, Hdir, Hmy, Hpeer.
  replace (Bool.eqb (negb (Client new)) (Client new)) with false
    by (by destruct (Client new)).
  destruct (Z.ltb_spec (30 * time_Second) (time_Since now (timeConnected (contact w))));
    [lia |].
  by destruct (Bool.eqb (String.ltb my peer) (Client new)).
Qed.

(** What a successful [setConnection] leaves: the candidate is the
    current connection, and the heap differs at most by the former
    current connection being closed. *)
Lemma setConnection_adopted w conn clk w' :
  setConnection formatRFC3339 w conn clk = Returns (None, w') ->
  connection (contact w') = Some conn /\
  heap w' = match connection (contact w) with
            | Some cur => Close cur (heap w)
            | None => heap w
            end.
Proof.
  unfold setConnection. intros Hset.
  destruct (heap w !! conn) as [oc |]; [| discriminate].
  case_bool_decide; [discriminate |].
  destruct (negb (IsAuthed oc) || Closed oc); [discriminate |].
  destruct (label16 (Hostname (data (contact w)))) as [label |]; [| discriminate].
  destruct (negb (String.eqb label (OtherHostname oc))); [discriminate |].
  destruct (Client oc && negb (outboundConnAuthKnown (contact w))
            && negb (Pending (Request (data (contact w))))); [discriminate |].
  cbv beta zeta in Hset.
  destruct (connection (contact w)) as [cur |].
  - destruct (shouldReplaceConnection (contact w) (heap w) conn (nowDuel clk))
      as [[|] |]; try discriminate.
    injection Hset as <-. cbn.
    destruct (Pending (Request (data (contact w)))); [| split; reflexivity].
    destruct (Client oc && negb (outboundConnAuthKnown (contact w))); split; reflexivity.
  - injection Hset as <-. cbn.
    destruct (Pending (Request (data (contact w)))); [| split; reflexivity].
    destruct (Client oc && negb (outboundConnAuthKnown (contact w))); split; reflexivity.
Qed.

(** [setConnection] settles a duel for the session whose direction is
    [myLabel < peerLabel] and closes the other one. *)
Lemma setConnection_duel w cur conn clk my peer :
  duel w cur conn (nowDuel clk) my peer ->
  exists r w' kept other,
    setConnection formatRFC3339 w conn clk = Returns (r, w') /\
    (kept = cur /\ other = conn \/ kept = conn /\ other = cur) /\
    keeps w' kept other (String.ltb my peer).
Proof.
  intros Hduel.
  destruct (shouldReplaceConnection_duel w cur conn (nowDuel clk) my peer Hduel)
    as (new & Hnew & Hverdict).
  destruct Hduel as (old & new' & Hcur & Hne & Hold & Hnew' & Hopen & Hopen' & Hauth
                     & Hdir & _ & Hpeer & Hlabel & Hknown & _).
  assert (new' = new) as -> by congruence.
  assert (Hset :
    (Bool.eqb (String.ltb my peer) (Client new) = true ->
     exists w', setConnection formatRFC3339 w conn clk = Returns (None, w')) /\
    (Bool.eqb (String.ltb my peer) (Client new) = false ->
     setConnection formatRFC3339 w conn clk
       = Returns (Some ErrUsingExisting, set_heap w (Close conn (heap w))))).
  { unfold setConnection. rewrite Hnew, Hcur, Hlabel, Hverdict, Hauth, Hopen', Hpeer.
    rewrite bool_decide_eq_false_2 by congruence.
    rewrite String.eqb_refl. cbn [negb orb].
    replace (Client new && negb (outboundConnAuthKnown (contact w))
             && negb (Pending (Request (data (contact w))))) with false.
    - split; intros ->; [eexists |]; reflexivity.
    - destruct (Client new); [| reflexivity].
      destruct (Hknown eq_refl) as [-> | ->]; [reflexivity |].
      by rewrite andb_false_r. }
  destruct Hset as [Hreplace Hkeep].
  destruct (Bool.eqb (String.ltb my peer) (Client new)) eqn:Hpref.
  - destruct (Hreplace eq_refl) as [w' Hres].
    destruct (setConnection_adopted w conn clk w' Hres) as [Hconn Hheap].
    rewrite Hcur in Hheap.
    exists None, w', conn, cur. split; [exact Hres |]. split; [auto |].
    split; [exact Hconn |]. split.
    + exists new. rewrite Hheap, Close_lookup_other by exact Hne.
      split; [exact Hnew |]. split; [exact Hopen' |].
      symmetry. by apply Bool.eqb_prop.
    + exists (closeConn old). rewrite Hheap. split; [by apply Close_lookup_same | reflexivity].
  - exists (Some ErrUsingExisting), (set_heap w (Close conn (heap w))), cur, conn.
    split; [exact (Hkeep eq_refl) |]. split; [auto |].
    split; [exact Hcur |]. cbn [heap set_heap]. split.
    + exists old. rewrite Close_lookup_other by congruence.
      split; [exact Hold |]. split; [exact Hopen |].
      rewrite Hdir. apply Bool.eqb_false_iff in Hpref.
      destruct (String.ltb my peer), (Client new); simpl; congruence.
    + exists (closeConn new). split; [by apply Close_lookup_same | reflexivity].
Qed.

(** C1. [shouldReplaceConnection] applies its rules in order: a closed
    current session is replaced; a candidate of the same direction
    replaces; a current session older than 30 seconds is replaced;
    otherwise the session kept is the one whose direction equals
    [preferOutbound], the candidate's local label being smaller than
    its peer label. For two labels [A < B] and, at each endpoint, a
    fresh session of one direction challenged by a session of the
    other, [setConnection] leaves both endpoints with the session that
    [A] dialed (outbound at [A], inbound at [B]) as the open current
    connection and with the other session closed. *)
Theorem duel_resolution :
  (forall c h conn now cur old new,
      connection c = Some cur -> h !! cur = Some old -> h !! conn = Some new ->
      (Closed old = true -> shouldReplaceConnection c h conn now = Returns true) /\
      (Closed old = false -> Client old = Client new ->
       shouldReplaceConnection c h conn now = Returns true) /\
      (Closed old = false -> Client old <> Client new ->
       30 * time_Second < time_Since now (timeConnected c) ->
       shouldReplaceConnection c h conn now = Returns true) /\
      (Closed old = false -> Client old <> Client new ->
       time_Since now (timeConnected c) <= 30 * time_Second ->
       exists replace,
         shouldReplaceConnection c h conn now = Returns replace /\
         (if replace then Client new else Client old)
           = String.ltb (MyHostname new) (OtherHostname new))) /\
  (forall A B wA curA connA clkA wB curB connB clkB,
      String.ltb A B = true ->
      duel wA curA connA (nowDuel clkA) A B ->
      duel wB curB connB (nowDuel clkB) B A ->
      exists rA wA' keptA otherA rB wB' keptB otherB,
        setConnection formatRFC3339 wA connA clkA = Returns (rA, wA') /\
        (keptA = curA /\ otherA = connA \/ keptA = connA /\ otherA = curA) /\
        keeps wA' keptA otherA true /\
        setConnection formatRFC3339 wB connB clkB = Returns (rB, wB') /\
        (keptB = curB /\ otherB = connB \/ keptB = connB /\ otherB = curB) /\
        keeps wB' keptB otherB false).
Proof.
  split.
  - intros c h conn now cur old new Hcur Hold Hnew.
    unfold shouldReplaceConnection. rewrite Hcur, Hold, Hnew.
    split; [by intros -> |]. split; [| split].
    + intros -> ->. by rewrite Bool.eqb_reflx.
    + intros -> Hdir%Bool.eqb_false_iff Hage. rewrite Hdir.
      by destruct (Z.ltb_spec (30 * time_Second) (time_Since now (timeConnected c)));
        [| lia].
    + intros -> Hdir Hage. pose proof Hdir as Hdir'%Bool.eqb_false_iff. rewrite Hdir'.
      destruct (Z.ltb_spec (30 * time_Second) (time_Since now (timeConnected c)));
        [lia |].
      destruct (Bool.eqb (String.ltb (MyHostname new) (OtherHostname new)) (Client new))
        eqn:Hpref.
      * exists true. split; [reflexivity |]. symmetry. by apply Bool.eqb_prop.
      * exists false. split; [reflexivity |]. apply Bool.eqb_false_iff in Hpref.
        destruct (Client old), (Client new),
          (String.ltb (MyHostname new) (OtherHostname new)); congruence.
  - intros A B wA curA connA clkA wB curB connB clkB Hlt HA HB.
    destruct (setConnection_duel wA curA connA clkA A B HA)
      as (rA & wA' & keptA & otherA & HsetA & HpairA & HkeepA).
    destruct (setConnection_duel wB curB connB clkB B A HB)
      as (rB & wB' & keptB & otherB & HsetB & HpairB & HkeepB).
    rewrite Hlt in HkeepA. rewrite (ltb_asym A B Hlt) in HkeepB.
    exists rA, wA', keptA, otherA, rB, wB', keptB, otherB. auto 10.
Qed.

(** [dials] of a trace that grew by one action. *)
Lemma dials_emit w a :
  dials (trace (emit w a)) = (dials (trace w) + if is_dial a then 1 else 0)%nat.
Proof.
  unfold dials, emit. cbn [trace]. rewrite List.filter_app, length_app.
  cbn [List.filter]. by destruct (is_dial a).
Qed.

Lemma dials_saveContact w : dials (trace (saveContact w)) = dials (trace w).
Proof. reflexivity. Qed.

Lemma setConnection_dials w conn clk r w' :
  setConnection formatRFC3339 w conn clk = Returns (r, w') ->
  dials (trace w') = dials (trace w).
Proof.
  destruct r as [e |]; intros Hset.
  { destruct (setConnection_error w conn clk e w' Hset)
      as [(_ & _ & ->) | (_ & _ & -> & _)]; reflexivity. }
  revert Hset. unfold setConnection.
  destruct (heap w !! conn) as [oc |]; [| discriminate].
  case_bool_decide; [discriminate |].
  destruct (negb (IsAuthed oc) || Closed oc); [discriminate |].
  destruct (label16 (Hostname (data (contact w)))) as [label |]; [| discriminate].
  destruct (negb (String.eqb label (OtherHostname oc))); [discriminate |].
  destruct (Client oc && negb (outboundConnAuthKnown (contact w))
            && negb (Pending (Request (data (contact w))))); [discriminate |].
  cbv beta zeta.
  destruct (connection (contact w)) as [cur |].
  - destruct (shouldReplaceConnection (contact w) (heap w) conn (nowDuel clk))
      as [[|] |]; try discriminate.
    intros [= <-]. rewrite !dials_emit, dials_saveContact. cbn [is_dial trace set_contact].
    rewrite !Nat.add_0_r.
    destruct (Pending (Request (data (contact w)))); [| reflexivity].
    destruct (Client oc && negb (outboundConnAuthKnown (contact w)));
      [rewrite dials_emit; cbn [is_dial]; rewrite Nat.add_0_r |]; reflexivity.
  - intros [= <-]. rewrite !dials_emit, dials_saveContact. cbn [is_dial trace set_contact].
    rewrite !Nat.add_0_r.
    destruct (Pending (Request (data (contact w)))); [| reflexivity].
    destruct (Client oc && negb (outboundConnAuthKnown (contact w)));
      [rewrite dials_emit; cbn [is_dial]; rewrite Nat.add_0_r |]; reflexivity.
Qed.

Lemma clearConnection_dials w ifConn now :
  dials (trace (fst (clearConnection formatRFC3339 w ifConn now))) = dials (trace w).
Proof.
  unfold clearConnection.
  destruct (connection (contact w)) as [conn |]; [| reflexivity].
  destruct (match ifConn with Some p => negb (bool_decide (conn = p)) | None => false end);
    [reflexivity |].
  cbn [fst]. rewrite dials_emit. cbn [is_dial]. rewrite Nat.add_0_r.
  destruct (heap _ !! conn) as [oc |]; [destruct (negb (Closed oc)) |]; reflexivity.
Qed.

Lemma loopHead_rejected w :
  status (contact w) = Contact_REJECTED -> loopHead w = (w, false).
Proof.
  intros Hst. unfold loopHead, shouldMakeOutboundConnections. rewrite Hst.
  cbn. by rewrite andb_false_r.
Qed.

(** C7. A REJECTED contact makes [shouldMakeOutboundConnections] return
    false; the head of the connection loop spawns an outbound connector
    exactly when there is no connection and that function returns true,
    and records one dial then; so a turn of the loop begun while the
    contact is REJECTED records no dial, and starting the agent on a
    REJECTED contact takes no action at all (no dial, no event) and
    leaves the status REJECTED. *)
Theorem rejected_never_dials :
  (forall c, status c = Contact_REJECTED -> shouldMakeOutboundConnections c = false) /\
  (forall w,
      (snd (loopHead w) = true <->
       connection (contact w) = None /\ shouldMakeOutboundConnections (contact w) = true) /\
      dials (trace (fst (loopHead w)))
        = (dials (trace w) + if snd (loopHead w) then 1 else 0)%nat) /\
  (forall w input w' continue,
      status (contact w) = Contact_REJECTED ->
      loopTurn formatRFC3339 w input = Returns (w', continue) ->
      dials (trace w') = dials (trace w)) /\
  (forall w exitNow,
      status (contact w) = Contact_REJECTED ->
      exists w',
        StartConnection formatRFC3339 w [] exitNow = Returns w' /\
        trace w' = trace w /\
        status (contact w') = Contact_REJECTED).
Proof.
  split; [| split; [| split]].
  - intros c Hst. unfold shouldMakeOutboundConnections. by rewrite Hst.
  - intros w. unfold loopHead.
    destruct (bool_decide (connection (contact w) = None)) eqn:Hnone;
      destruct (shouldMakeOutboundConnections (contact w)); cbn [andb fst snd].
    + apply bool_decide_eq_true in Hnone. split; [tauto |]. apply dials_emit.
    + split; [split; [discriminate | intros [_ ?]; discriminate] | lia].
    + apply bool_decide_eq_false in Hnone. split; [split; [discriminate | tauto] | lia].
    + split; [split; [discriminate | intros [_ ?]; discriminate] | lia].
  - intros w input w' continue Hst. unfold loopTurn.
    rewrite (loopHead_rejected w Hst). cbn [outboundCancel].
    destruct input as [| | conn clk | now].
    + by intros [= <- _].
    + by intros [= <- _].
    + destruct (setConnection formatRFC3339 w conn clk) as [[[e |] w2] |] eqn:Hset;
        [| | discriminate].
      * apply setConnection_dials in Hset.
        destruct (heap w2 !! conn) as [oc |]; [| discriminate].
        destruct (negb (Closed oc) &&
                  negb (bool_decide (Some conn = connection (contact w2))));
          intros [= <- _]; exact Hset.
      * apply setConnection_dials in Hset. by intros [= <- _].
    + intros [= <- _]. apply clearConnection_dials.
  - intros w exitNow Hst. unfold StartConnection.
    destruct (connEnabled (contact w)); [by exists w |].
    cbn [contactConnection]. eexists. split; [reflexivity |].
    rewrite loopHead_rejected by (cbn; exact Hst). cbn. auto.
Qed.

(** C5. An outbound session that authenticates with isKnownContact
    false, for a contact without a pending request: the session is
    closed, but the status stays OFFLINE instead of moving to REJECTED,
    [shouldMakeOutboundConnections] still returns true and the next
    turn of the connection loop dials again. *)
Theorem not_known_contact_dials_again :
  exists w1 w2,
    OnConnectionAuthenticated Fixtures.worldOffline 1%positive false
      = Returns (w1, Some 1%positive) /\
    Pending (Request (data (contact w1))) = false /\
    loopTurn formatRFC3339 w1 (InConn 1%positive Fixtures.freshClock) = Returns (w2, true) /\
    (exists oc, heap w2 !! 1%positive = Some oc /\ Closed oc = true) /\
    connection (contact w2) = None /\
    status (contact w2) = Contact_OFFLINE /\
    shouldMakeOutboundConnections (contact w2) = true /\
    snd (loopHead w2) = true.
Proof.
  eexists. eexists.
  split; [vm_compute; reflexivity |].
  split; [reflexivity |].
  split; [vm_compute; reflexivity |].
  split; [eexists; split; vm_compute; reflexivity |].
  repeat split; vm_compute; reflexivity.
Qed.

End AgentFacts.

(** ** The agent's properties at the concrete endpoints *)

Section AgentExamples.
Import Agent.

Lemma duel_resolution_witness :
  exists rA wA' keptA otherA rB wB' keptB otherB,
    setConnection Fixtures.noFormat Fixtures.worldA 2%positive Fixtures.freshClock
      = Returns (rA, wA') /\
    (keptA = 1%positive /\ otherA = 2%positive \/
     keptA = 2%positive /\ otherA = 1%positive) /\
    keeps wA' keptA otherA true /\
    setConnection Fixtures.noFormat Fixtures.worldB 2%positive Fixtures.freshClock
      = Returns (rB, wB') /\
    (keptB = 1%positive /\ otherB = 2%positive \/
     keptB = 2%positive /\ otherB = 1%positive) /\
    keeps wB' keptB otherB false.
Proof.
  apply (proj2 (duel_resolution Fixtures.noFormat) Fixtures.labelA Fixtures.labelB
           Fixtures.worldA 1%positive 2%positive Fixtures.freshClock
           Fixtures.worldB 1%positive 2%positive Fixtures.freshClock).
  - vm_compute. reflexivity.
  - exists (Fixtures.session true Fixtures.labelA Fixtures.labelB),
           (Fixtures.session false Fixtures.labelA Fixtures.labelB).
    repeat split; try (vm_compute; reflexivity); discriminate.
  - exists (Fixtures.session true Fixtures.labelB Fixtures.labelA),
           (Fixtures.session false Fixtures.labelB Fixtures.labelA).
    repeat split; try (vm_compute; reflexivity); discriminate.
Defined.

Lemma rejected_never_dials_witness :
  shouldMakeOutboundConnections (contact Fixtures.worldRejected) = false /\
  exists w',
    StartConnection Fixtures.noFormat Fixtures.worldRejected [] 0 = Returns w' /\
    trace w' = trace Fixtures.worldRejected /\
    status (contact w') = Contact_REJECTED.
Proof.
  split.
  - apply (proj1 (rejected_never_dials Fixtures.noFormat) (contact Fixtures.worldRejected)). reflexivity.
  - apply (proj2 (proj2 (proj2 (rejected_never_dials Fixtures.noFormat))) Fixtures.worldRejected 0).
    reflexivity.
Defined.

Lemma setConnection_error_preserves_witness :
  contact (set_heap Fixtures.worldA (Close 2%positive (heap Fixtures.worldA)))
    = contact Fixtures.worldA.
Proof.
  apply (setConnection_error_preserves Fixtures.noFormat Fixtures.worldA 2%positive Fixtures.freshClock
           ErrUsingExisting).
  vm_compute. reflexivity.
Defined.

End AgentExamples.

(** * Further properties of the conversation *)

Section ConversationMore.
Import Conv.

Local Abbreviation unreadQ := (fun m : Message => Status m = Message_UNREAD).

Ltac consts :=
  unfold backlogHardLimit, backlogSoftLimit, backlogContextNum, maxMessageTextLength in *.

Lemma set_messages_same c ms : ms = messages c -> set_messages c ms = c.
Proof. intros ->. by destruct c. Qed.

(** Trimming drops a prefix and never goes below the soft limit. *)
Lemma trimBacklog_drop c :
  exists k : Z,
    0 <= k <= Z.max 0 (len (messages c) - backlogSoftLimit) /\
    messages (trimBacklog c) = drop (Z.to_nat k) (messages c).
Proof.
  unfold trimBacklog.
  destruct (trimSoft_drop (trimHard c)) as (k & Hk & Hdrop & _).
  pose proof (trimHard_len c) as Hlen. pose proof (len_nonneg (messages c)) as Hnn.
  rewrite Hdrop, trimHard_messages, drop_drop. consts.
  exists (Z.max 0 (len (messages c) - 200) + k). split; [lia |].
  f_equal. lia.
Qed.

Lemma trimBacklog_len_hard c : len (messages (trimBacklog c)) <= backlogHardLimit.
Proof.
  unfold trimBacklog.
  destruct (trimSoft_drop (trimHard c)) as (k & Hk & -> & _).
  pose proof (trimHard_len c) as Hlen. pose proof (len_nonneg (messages (trimHard c))).
  consts. rewrite len_drop by lia. lia.
Qed.

Lemma trimSoft_fields c :
  identityAddress (trimSoft c) = identityAddress c /\
  contactAddress (trimSoft c) = contactAddress c /\
  active (trimSoft c) = active c.
Proof. unfold trimSoft. by destruct (len (messages c) <=? backlogSoftLimit). Qed.

Lemma trimHard_fields c :
  identityAddress (trimHard c) = identityAddress c /\
  contactAddress (trimHard c) = contactAddress c /\
  active (trimHard c) = active c.
Proof. unfold trimHard. by destruct (backlogHardLimit <? len (messages c)). Qed.

Lemma trimBacklog_fields c :
  identityAddress (trimBacklog c) = identityAddress c /\
  contactAddress (trimBacklog c) = contactAddress c /\
  active (trimBacklog c) = active c.
Proof.
  unfold trimBacklog.
  destruct (trimSoft_fields (trimHard c)) as (-> & -> & ->). apply trimHard_fields.
Qed.

Lemma list_find_drop (ms : list Message) (k u : nat) x :
  list_find unreadQ ms = Some (u, x) -> (k <= u)%nat ->
  list_find unreadQ (drop k ms) = Some ((u - k)%nat, x).
Proof.
  intros (Hu & Hx & Hleast)%list_find_Some Hk. apply list_find_Some.
  split; [| split; [exact Hx |]].
  - rewrite lookup_drop. by replace (k + (u - k))%nat with u by lia.
  - intros j y Hj Hlt. rewrite lookup_drop in Hj. apply (Hleast _ _ Hj). lia.
Qed.

(** X1. Trimming is idempotent: a trimmed conversation is left as it
    is by a second trim. *)
Theorem trimBacklog_idempotent c : trimBacklog (trimBacklog c) = trimBacklog c.
Proof.
  pose proof (trimBacklog_len_hard c) as Hhard.
  unfold trimBacklog at 1. rewrite trimHard_small by exact Hhard.
  destruct (Z.le_gt_cases (len (messages (trimBacklog c))) backlogSoftLimit) as [Hs | Hb].
  { by apply trimSoft_small. }
  assert (Hmsgs : messages (trimSoft (trimBacklog c)) = messages (trimBacklog c)).
  { rewrite (trimSoft_messages (trimBacklog c)) by exact Hb.
    revert Hb. unfold trimBacklog. set (c1 := trimHard c).
    destruct (Z.le_gt_cases (len (messages c1)) backlogSoftLimit) as [Hs1 | Hb1].
    { rewrite trimSoft_small by exact Hs1. lia. }
    rewrite (trimSoft_messages c1) by exact Hb1.
    pose proof (len_nonneg (messages c1)) as Hnn.
    destruct (list_find unreadQ (messages c1)) as [[u x] |] eqn:Hfind.
    - pose proof Hfind as (Hu%lookup_lt_Some & _)%list_find_Some.
      consts. fold (len (messages c1)) in *.
      destruct (Z.leb_spec (Z.of_nat u) (len (messages c1) - 100)) as [Hin | Hout].
      + intros Hb.
        rewrite (list_find_drop (messages c1) (Z.to_nat (Z.max (Z.of_nat u - 3) 0)) u x
                   Hfind) by lia.
        rewrite len_drop by lia.
        destruct (Z.leb_spec
                    (Z.of_nat (u - Z.to_nat (Z.max (Z.of_nat u - 3) 0)))
                    (len (messages c1) - Z.max (Z.of_nat u - 3) 0 - 100)); [| lia].
        replace (Z.to_nat (Z.max
                   (Z.of_nat (u - Z.to_nat (Z.max (Z.of_nat u - 3) 0)) - 3) 0)) with O by lia.
        reflexivity.
      + rewrite len_drop by lia. lia.
    - consts. rewrite len_drop by lia. lia. }
  unfold trimSoft in *.
  destruct (len (messages (trimBacklog c)) <=? backlogSoftLimit); [reflexivity |].
  apply set_messages_same. exact Hmsgs.
Qed.

(** X2. Trimming keeps a suffix of the backlog, in order, that holds at
    least the newest 100 messages (all of them when there are fewer),
    and touches neither the addresses nor the active flag. *)
Theorem trimBacklog_keeps_newest c :
  exists k : nat,
    messages (trimBacklog c) = drop k (messages c) /\
    Z.min (len (messages c)) backlogSoftLimit <= len (messages (trimBacklog c)) /\
    identityAddress (trimBacklog c) = identityAddress c /\
    contactAddress (trimBacklog c) = contactAddress c /\
    active (trimBacklog c) = active c.
Proof.
  destruct (trimBacklog_drop c) as (k & Hk & Hdrop).
  pose proof (len_nonneg (messages c)) as Hnn.
  exists (Z.to_nat k). split; [exact Hdrop |].
  split; [| apply trimBacklog_fields].
  rewrite Hdrop. consts. rewrite len_drop by lia. lia.
Qed.

(** X3. A message that validates is the newest message of the backlog
    after [AddMessage], whatever the trimming removed. *)
Theorem AddMessage_newest backend c msg populating :
  validateMessage c msg = None ->
  exists c' out,
    AddMessage backend c msg populating = Returns (c', out) /\
    last (messages c') = Some msg.
Proof.
  intros Hv. destruct (AddMessage_valid backend c msg populating Hv) as [out Hadd].
  exists (trimBacklog (appended c msg)), out. split; [exact Hadd |].
  destruct (trimBacklog_drop (appended c msg)) as (k & Hk & ->).
  rewrite messages_appended in *. rewrite len_app in Hk.
  change (len [msg]) with 1 in Hk. pose proof (len_nonneg (messages c)) as Hnn.
  consts. rewrite drop_app_le by (unfold len in *; lia).
  apply last_snoc.
Qed.

Lemma AddMessage_newest_witness :
  exists c' out,
    AddMessage Fixtures.okBackend Fixtures.conv100
      (Fixtures.inbound 9 Message_UNREAD "more") false = Returns (c', out) /\
    last (messages c') = Some (Fixtures.inbound 9 Message_UNREAD "more").
Proof.
  apply (AddMessage_newest Fixtures.okBackend Fixtures.conv100
           (Fixtures.inbound 9 Message_UNREAD "more") false).
  vm_compute. reflexivity.
Defined.

(** X4. What passing [validateMessage] guarantees: both entities are
    present, exactly the sender or the recipient is marked as self, the
    other side carries the contact's address, the status is not NULL
    and the text has 1 to 2000 bytes. *)
Theorem validateMessage_sound c msg :
  validateMessage c msg = None ->
  exists s r,
    Sender msg = Some s /\ Recipient msg = Some r /\
    IsSelf s = negb (IsSelf r) /\
    Address (if IsSelf s then r else s) = contactAddress c /\
    Status msg <> Message_NULL /\
    1 <= strlen (Text msg) <= maxMessageTextLength.
Proof.
  unfold validateMessage.
  destruct (Sender msg) as [s |]; [| discriminate].
  destruct (Recipient msg) as [r |]; [| discriminate].
  intros Hv. exists s, r. split; [reflexivity |]. split; [reflexivity |].
  destruct (negb (IsSelf (if IsSelf s then s else r)) || _) eqn:Hlocal; [discriminate |].
  destruct (IsSelf (if IsSelf s then r else s) || _) eqn:Hremote; [discriminate |].
  case_bool_decide as Hnull; [discriminate |].
  destruct ((strlen (Text msg) =? 0) || _) eqn:Htext; [discriminate |].
  apply orb_false_iff in Hlocal as [Hl _]. apply negb_false_iff in Hl.
  apply orb_false_iff in Hremote as [Hr Haddr]. apply negb_false_iff, String.eqb_eq in Haddr.
  apply orb_false_iff in Htext as [H0%Z.eqb_neq H2%Z.ltb_ge].
  assert (0 <= strlen (Text msg)) by (unfold strlen; lia).
  split; [| split; [exact Haddr | split; [exact Hnull | lia]]].
  destruct (IsSelf s), (IsSelf r); simpl in *; congruence.
Qed.

Lemma validateMessage_sound_witness :
  exists s r,
    Sender (Fixtures.inbound 7 Message_READ "hello") = Some s /\
    Recipient (Fixtures.inbound 7 Message_READ "hello") = Some r /\
    IsSelf s = negb (IsSelf r) /\
    Address (if IsSelf s then r else s) = contactAddress Fixtures.convRead /\
    Status (Fixtures.inbound 7 Message_READ "hello") <> Message_NULL /\
    1 <= strlen (Text (Fixtures.inbound 7 Message_READ "hello")) <= maxMessageTextLength.
Proof.
  apply (validateMessage_sound Fixtures.convRead (Fixtures.inbound 7 Message_READ "hello")).
  vm_compute. reflexivity.
Defined.

Lemma validateMessage_addresses c d msg :
  identityAddress d = identityAddress c ->
  contactAddress d = contactAddress c ->
  validateMessage d msg = validateMessage c msg.
Proof. intros Hi Hc. unfold validateMessage. by rewrite Hi, Hc. Qed.

Lemma backlog_valid_transfer c d :
  identityAddress d = identityAddress c ->
  contactAddress d = contactAddress c ->
  Forall (fun m => validateMessage c m = None) (messages d) ->
  backlog_valid d.
Proof.
  intros Hi Hc Hall. unfold backlog_valid.
  eapply Forall_impl; [exact Hall |].
  intros m Hm. by rewrite (validateMessage_addresses c d m Hi Hc).
Qed.

(** X5. [AddMessage] always returns, and a backlog in which every
    message validates stays such a backlog: a message that does not
    validate is never stored. *)
Theorem AddMessage_backlog_valid backend c msg populating :
  backlog_valid c ->
  exists c' out,
    AddMessage backend c msg populating = Returns (c', out) /\
    backlog_valid c'.
Proof.
  intros Hvalid.
  destruct (validateMessage c msg) as [err |] eqn:Hv.
  - exists c, [ELogRejected err]. split; [| exact Hvalid].
    unfold AddMessage. by rewrite Hv.
  - destruct (AddMessage_valid backend c msg populating Hv) as [out Hadd].
    exists (trimBacklog (appended c msg)), out. split; [exact Hadd |].
    destruct (trimBacklog_fields (appended c msg)) as (Hi & Hc & _).
    assert (Hi' : identityAddress (appended c msg) = identityAddress c)
      by (unfold appended; by destruct (is_unread msg)).
    assert (Hc' : contactAddress (appended c msg) = contactAddress c)
      by (unfold appended; by destruct (is_unread msg)).
    apply (backlog_valid_transfer c); [congruence | congruence |].
    destruct (trimBacklog_drop (appended c msg)) as (k & _ & ->).
    apply Forall_drop. rewrite messages_appended.
    apply Forall_app. split; [exact Hvalid | by constructor].
Qed.

Lemma AddMessage_backlog_valid_witness :
  exists c' out,
    AddMessage Fixtures.okBackend Fixtures.convRead
      (Fixtures.inbound 9 Message_NULL "x") false = Returns (c', out) /\
    backlog_valid c'.
Proof.
  apply (AddMessage_backlog_valid Fixtures.okBackend Fixtures.convRead
           (Fixtures.inbound 9 Message_NULL "x") false).
  repeat constructor.
Defined.

(** The search of [UpdateMessage] walks down past the messages that do
    not match the update. *)
Lemma updateLoop_skip c updatedMsg su (pre post : list Message) k :
  Sender updatedMsg = Some su ->
  messages c = pre ++ post ->
  Forall (fun m => is_Some (Sender m) /\ ~ matches updatedMsg m) post ->
  (k <= length post)%nat ->
  updateLoop c updatedMsg (IsSelf su) (length pre + k)
    = updateLoop c updatedMsg (IsSelf su) (length pre).
Proof.
  intros Hsu Hms Hpost. induction k as [| k IH]; intros Hk.
  - by rewrite Nat.add_0_r.
  - rewrite Nat.add_succ_r. cbn [updateLoop]. rewrite Hms.
    rewrite lookup_app_r by lia.
    replace (length pre + k - length pre)%nat with k by lia.
    destruct (lookup_lt_is_Some_2 post k) as [m Hm]; [lia |]. rewrite Hm.
    destruct (proj1 (Forall_lookup _ _) Hpost k m Hm) as [[s Hs] Hno].
    rewrite Hs. unfold matches in Hno. rewrite Hsu, Hs in Hno.
    destruct (Bool.eqb (IsSelf s) (IsSelf su)) eqn:Hdir; cbn [negb orb].
    + apply Bool.eqb_prop in Hdir.
      destruct (Z.eqb_spec (Identifier m) (Identifier updatedMsg)) as [Hid | Hid];
        [tauto |].
      cbn [negb]. apply IH. lia.
    + apply IH. lia.
Qed.

(** X6. [UpdateMessage] replaces the newest message of the same
    direction and identifier, and only that one: the messages before
    and after it stay in place, and the counter is decremented exactly
    when an UNREAD message is replaced by one that is not UNREAD. *)
Theorem UpdateMessage_replaces_newest c updatedMsg pre m post :
  validateMessage c updatedMsg = None ->
  messages c = pre ++ m :: post ->
  matches updatedMsg m ->
  Forall (fun x => is_Some (Sender x) /\ ~ matches updatedMsg x) post ->
  exists c',
    UpdateMessage c updatedMsg = Returns (c', []) /\
    messages c' = pre ++ updatedMsg :: post /\
    numUnread c' =
      (if is_unread m && negb (is_unread updatedMsg)
       then int_decr (numUnread c) else numUnread c).
Proof.
  intros Hv Hms Hmatch Hpost.
  destruct (validateMessage_Sender c updatedMsg Hv) as [su Hsu].
  unfold UpdateMessage. rewrite Hv, Hsu.
  assert (Hms' : messages c = (pre ++ [m]) ++ post) by (by rewrite <- app_assoc).
  assert (Hlen : length (messages c) = (length (pre ++ [m]) + length post)%nat)
    by (by rewrite Hms', length_app).
  assert (Hlook : messages c !! length pre = Some m)
    by (rewrite Hms; by apply list_lookup_middle).
  rewrite Hlen.
  rewrite (updateLoop_skip c updatedMsg su (pre ++ [m]) post (length post) Hsu Hms' Hpost)
    by lia.
  rewrite length_app. cbn [length]. rewrite Nat.add_1_r. cbn [updateLoop].
  rewrite Hlook.
  unfold matches in Hmatch. rewrite Hsu in Hmatch.
  destruct (Sender m) as [sm |]; [| contradiction].
  destruct Hmatch as [-> ->]. rewrite Bool.eqb_reflx, Z.eqb_refl. cbn [negb orb].
  eexists. split; [reflexivity |]. split.
  - destruct (is_unread m && negb (is_unread updatedMsg));
      cbn [messages set_messages set_numUnread]; rewrite Hms;
      rewrite insert_app_r_alt by lia;
      by replace (length pre - length pre)%nat with O by lia.
  - by destruct (is_unread m && negb (is_unread updatedMsg)).
Qed.

Lemma UpdateMessage_replaces_newest_witness :
  exists c',
    UpdateMessage Fixtures.convReplied (Fixtures.inbound 7 Message_READ "hello")
      = Returns (c', []) /\
    messages c' = [] ++ Fixtures.inbound 7 Message_READ "hello"
                    :: [Fixtures.outbound 8 Message_DELIVERED "hi"] /\
    numUnread c' =
      (if is_unread (Fixtures.inbound 7 Message_UNREAD "hello")
          && negb (is_unread (Fixtures.inbound 7 Message_READ "hello"))
       then int_decr (numUnread Fixtures.convReplied)
       else numUnread Fixtures.convReplied).
Proof.
  apply (UpdateMessage_replaces_newest Fixtures.convReplied
           (Fixtures.inbound 7 Message_READ "hello") []
           (Fixtures.inbound 7 Message_UNREAD "hello")
           [Fixtures.outbound 8 Message_DELIVERED "hi"]).
  - vm_compute. reflexivity.
  - reflexivity.
  - vm_compute. split; reflexivity.
  - repeat constructor; [by eexists |].
    vm_compute. intros [? _]. discriminate.
Defined.

(** X7. An update that validates but matches no message of the same
    direction and identifier leaves the conversation as it is and is
    only logged. *)
Theorem UpdateMessage_unknown c updatedMsg :
  validateMessage c updatedMsg = None ->
  Forall (fun x => is_Some (Sender x) /\ ~ matches updatedMsg x) (messages c) ->
  UpdateMessage c updatedMsg = Returns (c, [ELogUnknownUpdate updatedMsg]).
Proof.
  intros Hv Hnone.
  destruct (validateMessage_Sender c updatedMsg Hv) as [su Hsu].
  unfold UpdateMessage. rewrite Hv, Hsu.
  apply (updateLoop_skip c updatedMsg su [] (messages c) (length (messages c)) Hsu
           eq_refl Hnone (Nat.le_refl _)).
Qed.

Lemma UpdateMessage_unknown_witness :
  UpdateMessage Fixtures.convRead (Fixtures.inbound 8 Message_READ "other")
    = Returns (Fixtures.convRead, [ELogUnknownUpdate (Fixtures.inbound 8 Message_READ "other")]).
Proof.
  apply (UpdateMessage_unknown Fixtures.convRead (Fixtures.inbound 8 Message_READ "other")).
  - vm_compute. reflexivity.
  - repeat constructor; [by eexists |].
    vm_compute. intros [_ ?]. discriminate.
Defined.

Lemma updateLoop_valid c updatedMsg su i :
  backlog_valid c ->
  validateMessage c updatedMsg = None ->
  (i <= length (messages c))%nat ->
  exists c' out,
    updateLoop c updatedMsg su i = Returns (c', out) /\
    backlog_valid c' /\
    length (messages c') = length (messages c).
Proof.
  intros Hvalid Hv. induction i as [| j IH]; intros Hi; cbn [updateLoop].
  - eauto.
  - destruct (lookup_lt_is_Some_2 (messages c) j) as [m Hm]; [lia |]. rewrite Hm.
    pose proof (proj1 (Forall_lookup _ _) Hvalid j m Hm) as Hvm.
    destruct (validateMessage_Sender c m Hvm) as [s ->].
    destruct (negb (Bool.eqb (IsSelf s) su)
              || negb (Identifier m =? Identifier updatedMsg)); [apply IH; lia |].
    eexists. eexists. split; [reflexivity |]. split.
    + apply (backlog_valid_transfer c);
        [by destruct (is_unread m && _) | by destruct (is_unread m && _) |].
      destruct (is_unread m && negb (is_unread updatedMsg));
        cbn [messages set_messages set_numUnread]; by apply Forall_insert.
    + destruct (is_unread m && negb (is_unread updatedMsg));
        cbn [messages set_messages set_numUnread]; apply length_insert.
Qed.

(** X8. On a backlog in which every message validates, [UpdateMessage]
    always returns (no nil sender is dereferenced), keeps the number
    of messages and keeps every message valid. *)
Theorem UpdateMessage_backlog_valid c updatedMsg :
  backlog_valid c ->
  exists c' out,
    UpdateMessage c updatedMsg = Returns (c', out) /\
    backlog_valid c' /\
    length (messages c') = length (messages c).
Proof.
  intros Hvalid. unfold UpdateMessage.
  destruct (validateMessage c updatedMsg) as [err |] eqn:Hv; [eauto |].
  destruct (validateMessage_Sender c updatedMsg Hv) as [su ->].
  by apply updateLoop_valid.
Qed.

Lemma UpdateMessage_backlog_valid_witness :
  exists c' out,
    UpdateMessage Fixtures.convReplied (Fixtures.outbound 8 Message_ERROR "hi")
      = Returns (c', out) /\
    backlog_valid c' /\
    length (messages c') = length (messages Fixtures.convReplied).
Proof.
  apply (UpdateMessage_backlog_valid Fixtures.convReplied
           (Fixtures.outbound 8 Message_ERROR "hi")).
  repeat constructor.
Defined.

(** X9. [AddMessage] keeps the unread counter equal to the number of
    UNREAD messages of the backlog (the backlog being short enough for
    the counter not to wrap), so [UnreadCount] reports that number. *)
Theorem AddMessage_keeps_counter backend c msg populating :
  len (messages c) < 2 ^ 63 - 1 ->
  numUnread c = unread_count (messages c) ->
  exists c' out,
    AddMessage backend c msg populating = Returns (c', out) /\
    UnreadCount c' = unread_count (messages c').
Proof.
  intros Hlen Hinv.
  destruct (validateMessage c msg) as [err |] eqn:Hv.
  - exists c, [ELogRejected err]. split; [| exact Hinv].
    unfold AddMessage. by rewrite Hv.
  - destruct (AddMessage_valid backend c msg populating Hv) as [out Hadd].
    exists (trimBacklog (appended c msg)), out. split; [exact Hadd |].
    by apply trimBacklog_counter, appended_counter.
Qed.

Lemma AddMessage_keeps_counter_witness :
  exists c' out,
    AddMessage Fixtures.okBackend Fixtures.conv100
      (Fixtures.inbound 9 Message_UNREAD "more") false = Returns (c', out) /\
    UnreadCount c' = unread_count (messages c').
Proof.
  apply (AddMessage_keeps_counter Fixtures.okBackend Fixtures.conv100
           (Fixtures.inbound 9 Message_UNREAD "more") false);
    vm_compute; reflexivity.
Defined.

Lemma updateLoop_counter_drift c updatedMsg updSelf i c' out :
  len (messages c) < 2 ^ 63 ->
  numUnread c = unread_count (messages c) ->
  updateLoop c updatedMsg updSelf i = Returns (c', out) ->
  numUnread c' <= unread_count (messages c') <= numUnread c' + 1 /\
  (Status updatedMsg <> Message_UNREAD -> numUnread c' = unread_count (messages c')).
Proof.
  intros Hlen Hinv.
  induction i as [| j IH]; cbn [updateLoop].
  - intros [= <- _]. split; [lia | auto].
  - destruct (messages c !! j) as [msg |] eqn:Hj; [| discriminate].
    destruct (Sender msg) as [sender |]; [| discriminate].
    destruct (negb (Bool.eqb (IsSelf sender) updSelf)
              || negb (Identifier msg =? Identifier updatedMsg)); [exact IH |].
    intros [= <- _].
    pose proof (unread_count_insert (messages c) j msg updatedMsg Hj) as Hcount.
    pose proof (unread_count_bounds (messages c)) as Hb.
    assert (Hone : is_unread msg = true -> 1 <= unread_count (messages c)).
    { intros Hm. rewrite <- (take_drop_middle (messages c) j msg Hj).
      rewrite unread_count_app, unread_count_cons, Hm.
      pose proof (unread_count_bounds (take j (messages c))).
      pose proof (unread_count_bounds (drop (S j) (messages c))). lia. }
    assert (Hdecr : is_unread msg = true ->
                    int_decr (unread_count (messages c)) = unread_count (messages c) - 1).
    { intros Hm. specialize (Hone Hm). unfold int_decr. apply int_wrap_small.
      revert Hlen. generalize (2 ^ 63). lia. }
    destruct (is_unread msg) eqn:Hm, (is_unread updatedMsg) eqn:Hu;
      cbn [andb negb numUnread messages set_numUnread set_messages];
      rewrite Hcount, Hinv, ?Hdecr by reflexivity;
      (split; [lia |]); intros Hst; try lia;
      apply is_unread_false in Hst; congruence.
Qed.

(** X10. After [UpdateMessage] on a conversation whose counter is
    right, the counter is right again whenever the new status is not
    UNREAD, and is otherwise at most one short of the number of UNREAD
    messages. *)
Theorem UpdateMessage_counter_drift c updatedMsg c' out :
  len (messages c) < 2 ^ 63 ->
  numUnread c = unread_count (messages c) ->
  UpdateMessage c updatedMsg = Returns (c', out) ->
  UnreadCount c' <= unread_count (messages c') <= UnreadCount c' + 1 /\
  (Status updatedMsg <> Message_UNREAD -> UnreadCount c' = unread_count (messages c')).
Proof.
  intros Hlen Hinv. unfold UpdateMessage, UnreadCount.
  destruct (validateMessage c updatedMsg).
  - intros [= <- _]. split; [lia | auto].
  - destruct (Sender updatedMsg) as [s |]; [| discriminate].
    by apply updateLoop_counter_drift.
Qed.

Lemma UpdateMessage_counter_drift_witness :
  UnreadCount (mkConversation Fixtures.selfAddr Fixtures.peerAddr
                 [Fixtures.inbound 7 Message_READ "hello";
                  Fixtures.outbound 8 Message_DELIVERED "hi"] 0 false)
    = unread_count [Fixtures.inbound 7 Message_READ "hello";
                    Fixtures.outbound 8 Message_DELIVERED "hi"].
Proof.
  apply (proj2 (UpdateMessage_counter_drift Fixtures.convReplied
           (Fixtures.inbound 7 Message_READ "hello")
           (mkConversation Fixtures.selfAddr Fixtures.peerAddr
              [Fixtures.inbound 7 Message_READ "hello";
               Fixtures.outbound 8 Message_DELIVERED "hi"] 0 false) []
           ltac:(vm_compute; reflexivity) ltac:(vm_compute; reflexivity)
           ltac:(vm_compute; reflexivity))).
  discriminate.
Defined.

(** X11. [recountUnread] sets the counter to the number of UNREAD
    messages and leaves the backlog alone (the backlog being short
    enough for the counter not to wrap). *)
Theorem recountUnread_counts c :
  len (messages c) < 2 ^ 63 ->
  UnreadCount (recountUnread c) = unread_count (messages c) /\
  messages (recountUnread c) = messages c.
Proof.
  intros Hlen. split; [| reflexivity].
  unfold UnreadCount, recountUnread. cbn [numUnread set_numUnread].
  rewrite recount_loop_count; lia.
Qed.

Lemma recountUnread_counts_witness :
  UnreadCount (recountUnread Fixtures.conv201read) = 0.
Proof.
  apply (proj1 (recountUnread_counts Fixtures.conv201read ltac:(vm_compute; reflexivity))).
Defined.

Lemma findMessageId_found (ms : list Message) i m :
  findMessageId ms i = Some m -> m ∈ ms /\ Status m = Message_UNREAD.
Proof.
  induction i as [| j IH]; cbn [findMessageId]; [discriminate |].
  destruct (ms !! j) as [x |] eqn:Hj; [| discriminate].
  destruct (Status x) eqn:Hst; try exact IH; try discriminate.
  intros [= <-]. split; [by eapply list_elem_of_lookup_2 | exact Hst].
Qed.

(** X12. [MarkAsRead] sends at most one markConversationRead request,
    and only for a message of the backlog that is UNREAD, validates and
    was not sent by us; the request names that message's sender and
    identifier and the call returns the backend's answer. In every
    other case nothing is sent. *)
Theorem MarkAsRead_dispatch backend c r out :
  MarkAsRead backend c = Returns (r, out) ->
  out = [] \/
  exists m s,
    m ∈ messages c /\ Status m = Message_UNREAD /\
    validateMessage c m = None /\
    Sender m = Some s /\ IsSelf s = false /\
    r = backend (mkMarkRead (Some s) (Identifier m)) /\
    (out = [ERpcMarkConversationRead (mkMarkRead (Some s) (Identifier m))] \/
     exists e,
       out = [ERpcMarkConversationRead (mkMarkRead (Some s) (Identifier m));
              ELogMarkReadFailed e]).
Proof.
  unfold MarkAsRead.
  destruct (findMessageId (messages c) (length (messages c))) as [m |] eqn:Hfind.
  - apply findMessageId_found in Hfind as [Hin Hst].
    unfold MarkAsReadBefore.
    destruct (validateMessage c m) eqn:Hv; [intros [= <- <-]; by left |].
    destruct (Sender m) as [s |] eqn:Hs; [| discriminate].
    destruct (IsSelf s) eqn:Hself; [intros [= <- <-]; by left |].
    destruct (backend (mkMarkRead (Some s) (Identifier m))) as [e |] eqn:Hb;
      intros [= <- <-]; right; exists m, s; rewrite Hb; eauto 12.
  - intros [= <- <-]. by left.
Qed.

Lemma MarkAsRead_dispatch_witness :
  [ERpcMarkConversationRead (mkMarkRead (Some Fixtures.peerEntity) 7)] = [] \/
  exists m s,
    m ∈ messages Fixtures.convReplied /\ Status m = Message_UNREAD /\
    validateMessage Fixtures.convReplied m = None /\
    Sender m = Some s /\ IsSelf s = false /\
    None = Fixtures.okBackend (mkMarkRead (Some s) (Identifier m)) /\
    ([ERpcMarkConversationRead (mkMarkRead (Some Fixtures.peerEntity) 7)]
       = [ERpcMarkConversationRead (mkMarkRead (Some s) (Identifier m))] \/
     exists e,
       [ERpcMarkConversationRead (mkMarkRead (Some Fixtures.peerEntity) 7)]
         = [ERpcMarkConversationRead (mkMarkRead (Some s) (Identifier m));
            ELogMarkReadFailed e]).
Proof.
  apply (MarkAsRead_dispatch Fixtures.okBackend Fixtures.convReplied).
  vm_compute. reflexivity.
Defined.

Lemma contextStart_spec (ms : list Message) i start :
  contextStart ms i start =
    match list_find unreadQ ms with
    | Some (j, _) => i + Z.of_nat j - backlogContextNum
    | None => start
    end.
Proof.
  revert i. induction ms as [| m ms IH]; intros i; [reflexivity |].
  cbn [contextStart list_find].
  destruct (decide (Status m = Message_UNREAD)) as [Hm | Hm].
  - apply is_unread_true in Hm. rewrite Hm. simpl. f_equal. lia.
  - apply is_unread_false in Hm. rewrite Hm, IH.
    destruct (list_find unreadQ ms) as [[j x] |]; simpl; [| reflexivity]. lia.
Qed.

Lemma printLoop_active c (ms : list Message) :
  active c = true ->
  Forall (fun m => is_Some (Sender m)) ms ->
  printLoop c ms = Returns (EPrintLine <$> ms).
Proof.
  intros Hact Hall. induction Hall as [| m l [s Hs] _ IH]; [reflexivity |].
  cbn [printLoop]. unfold printMessage. by rewrite Hs, Hact, IH.
Qed.

(** X13. On an active conversation whose messages all have a sender,
    [PrintContext] prints, in order, the backlog from three messages
    before the oldest UNREAD message on (from the start when there are
    fewer than three), and the last three messages (or all of them)
    when no message is UNREAD. *)
Theorem PrintContext_active c :
  active c = true ->
  Forall (fun m => is_Some (Sender m)) (messages c) ->
  PrintContext c =
    Returns (EPrintLine <$>
      drop (Z.to_nat
              match list_find unreadQ (messages c) with
              | Some (u, _) => Z.max (Z.of_nat u - backlogContextNum) 0
              | None => Z.max (len (messages c) - backlogContextNum) 0
              end) (messages c)).
Proof.
  intros Hact Hall. unfold PrintContext. rewrite contextStart_spec.
  rewrite printLoop_active by (exact Hact || by apply Forall_drop).
  do 3 f_equal.
  destruct (list_find unreadQ (messages c)) as [[u x] |]; consts.
  - destruct (Z.ltb_spec (0 + Z.of_nat u - 3) 0); lia.
  - destruct (Z.ltb_spec (len (messages c) - 3) 0); lia.
Qed.

Lemma PrintContext_active_witness :
  PrintContext (set_active Fixtures.conv150 true) =
    Returns (EPrintLine <$> drop 7 (messages Fixtures.conv150)).
Proof.
  apply (PrintContext_active (set_active Fixtures.conv150 true) eq_refl).
  by apply Forall_forall; intros m Hin; vm_compute in Hin;
    repeat (apply elem_of_cons in Hin as [-> | Hin]; [by eexists |]);
    apply elem_of_nil in Hin.
Defined.

(** X14. [SetActive] changes nothing but the active flag, deactivating
    sends and prints nothing, and repeating a call is a no-op. *)
Theorem SetActive_settles backend c a c' out :
  SetActive backend c a = Returns (c', out) ->
  c' = set_active c a /\
  (a = false -> out = []) /\
  SetActive backend c' a = Returns (c', []).
Proof.
  unfold SetActive.
  destruct (Bool.eqb a (active c)) eqn:Hsame.
  - intros [= <- <-]. apply Bool.eqb_prop in Hsame. subst a.
    rewrite Bool.eqb_reflx. split; [by destruct c | auto].
  - assert (Hagain : Bool.eqb a (active (set_active c a)) = true)
      by apply Bool.eqb_reflx.
    destruct a.
    + destruct (PrintContext (set_active c true)) as [out1 |]; [| discriminate].
      destruct (MarkAsRead backend (set_active c true)) as [[r out2] |]; [| discriminate].
      intros [= <- <-]. rewrite Hagain. split; [reflexivity |]. split; [discriminate | reflexivity].
    + intros [= <- <-]. rewrite Hagain. auto.
Qed.

Lemma SetActive_settles_witness :
  SetActive Fixtures.okBackend (set_active Fixtures.convReplied true) true
    = Returns (set_active Fixtures.convReplied true, []).
Proof.
  apply (SetActive_settles Fixtures.okBackend Fixtures.convReplied true
           (set_active Fixtures.convReplied true)
           [EPrintLine (Fixtures.inbound 7 Message_UNREAD "hello");
            EPrintLine (Fixtures.outbound 8 Message_DELIVERED "hi");
            ERpcMarkConversationRead (mkMarkRead (Some Fixtures.peerEntity) 7)]).
  vm_compute. reflexivity.
Defined.

End ConversationMore.

(** * Further properties of the contact connection agent *)

Section AgentMore.
Import Agent.

Variable formatRFC3339 : Z -> string.

(** Everything a successful [setConnection] establishes. *)
Lemma setConnection_success_facts w conn clk w' :
  setConnection formatRFC3339 w conn clk = Returns (None, w') ->
  exists oc,
    heap w !! conn = Some oc /\
    connection (contact w) <> Some conn /\
    IsAuthed oc = true /\ Closed oc = false /\
    label16 (Hostname (data (contact w))) = Returns (OtherHostname oc) /\
    (Client oc = true ->
     outboundConnAuthKnown (contact w) = true \/
     Pending (Request (data (contact w))) = true) /\
    (forall cur, connection (contact w) = Some cur ->
       exists old, heap w !! cur = Some old) /\
    id (contact w') = id (contact w) /\
    Hostname (data (contact w')) = Hostname (data (contact w)) /\
    connEnabled (contact w') = connEnabled (contact w) /\
    connChannel (contact w') = connChannel (contact w) /\
    connection (contact w') = Some conn /\
    timeConnected (contact w') = nowConnected clk /\
    LastConnected (data (contact w')) = formatRFC3339 (nowConnected clk) /\
    persisted w' /\
    (if Pending (Request (data (contact w))) then
       if Client oc && negb (outboundConnAuthKnown (contact w)) then
         status (contact w') = status (contact w) /\
         Request (data (contact w')) = Request (data (contact w)) /\
         trace w' = trace w ++
           [ASendContactRequest conn 5 (MyNickname (Request (data (contact w))))
              (Message (Request (data (contact w))));
            APublishUpdate (status (contact w')) (data (contact w'));
            ASendQueuedMessages]
       else
         status (contact w') = Contact_ONLINE /\
         Request (data (contact w')) = emptyRequest /\
         trace w' = trace w ++
           [APublishUpdate (status (contact w')) (data (contact w')); ASendQueuedMessages]
     else
       status (contact w') = Contact_ONLINE /\
       Request (data (contact w')) = Request (data (contact w)) /\
       trace w' = trace w ++
         [APublishUpdate (status (contact w')) (data (contact w')); ASendQueuedMessages]).
Proof.
  unfold setConnection. intros Hset.
  destruct (heap w !! conn) as [oc |] eqn:Hoc; [| discriminate].
  case_bool_decide as Hdup; [discriminate |].
  destruct (negb (IsAuthed oc) || Closed oc) eqn:Hstate; [discriminate |].
  destruct (label16 (Hostname (data (contact w)))) as [label |] eqn:Hlabel;
    [| discriminate].
  destruct (negb (String.eqb label (OtherHostname oc))) eqn:Hhost; [discriminate |].
  destruct (Client oc && negb (outboundConnAuthKnown (contact w))
            && negb (Pending (Request (data (contact w))))) eqn:Hknown; [discriminate |].
  cbv beta zeta in Hset.
  apply orb_false_iff in Hstate as [Hauth%negb_false_iff Hopen].
  apply negb_false_iff, String.eqb_eq in Hhost. subst label.
  exists oc. split; [reflexivity |]. split; [congruence |].
  split; [exact Hauth |]. split; [exact Hopen |]. split; [reflexivity |].
  split.
  { intros Hc. rewrite Hc in Hknown.
    destruct (outboundConnAuthKnown (contact w)); [by left |].
    destruct (Pending (Request (data (contact w)))); [by right | discriminate]. }
  assert (Hcur : forall cur, connection (contact w) = Some cur ->
                             exists old, heap w !! cur = Some old).
  { intros cur Hc. rewrite Hc in Hset. unfold shouldReplaceConnection in Hset.
    rewrite Hc in Hset. destruct (heap w !! cur) as [old |]; [eauto | discriminate]. }
  split; [exact Hcur |]. clear Hcur.
  assert (Hw' : exists w0,
    contact w0 = set_connection (contact w) None /\ config w0 = config w /\
    trace w0 = trace w /\
    Returns (None, w') =
      (let w1 := set_contact w0 (set_connection (contact w0) (Some conn)) in
       let w2 :=
         if Pending (Request (data (contact w1))) then
           if Client oc && negb (outboundConnAuthKnown (contact w1)) then
             emit w1 (ASendContactRequest conn 5
                        (MyNickname (Request (data (contact w1))))
                        (Message (Request (data (contact w1)))))
           else fst (updateContactRequest formatRFC3339 w1 "Accepted" (nowRequest clk))
         else set_contact w1 (set_status (contact w1) Contact_ONLINE) in
       let c3 := set_timeConnected (contact w2) (nowConnected clk) in
       let c4 := set_data c3 (set_LastConnected (data c3)
                                 (formatRFC3339 (timeConnected c3))) in
       let w4 := saveContact (set_contact w2 c4) in
       let w5 := emit w4 (APublishUpdate (status (contact w4)) (data (contact w4))) in
       Returns (None, emit w5 ASendQueuedMessages) : outcome (option error * World))).
  { destruct (connection (contact w)) as [cur |] eqn:Hc.
    - destruct (shouldReplaceConnection (contact w) (heap w) conn (nowDuel clk))
        as [[|] |]; try discriminate.
      eexists. split; [| split; [| split; [| symmetry; exact Hset]]]; reflexivity.
    - exists w. split; [| split; [| split; [| symmetry; exact Hset]]];
        [| reflexivity | reflexivity].
      destruct w as [[] ? ? ?]. cbn in *. by subst. }
  destruct Hw' as (w0 & Hc0 & Hg0 & Ht0 & Hres). clear Hset.
  cbv zeta in Hres. injection Hres as ->.
  cbn [contact set_contact emit saveContact set_config data set_data status set_status
       connection set_connection id Hostname connEnabled connChannel timeConnected
       set_timeConnected LastConnected set_LastConnected outboundConnAuthKnown Request
       trace config].
  rewrite !Hc0.
  cbn [contact set_contact emit saveContact set_config data set_data status set_status
       connection set_connection id Hostname connEnabled connChannel timeConnected
       set_timeConnected LastConnected set_LastConnected outboundConnAuthKnown Request
       trace config].
  destruct (Pending (Request (data (contact w)))).
  - destruct (Client oc && negb (outboundConnAuthKnown (contact w)));
      unfold persisted; cbn; rewrite ?Hc0; cbn; rewrite ?Ht0, <- ?app_assoc;
      repeat split; try reflexivity; apply lookup_insert_eq.
  - unfold persisted; cbn; rewrite ?Hc0; cbn; rewrite ?Ht0, <- ?app_assoc;
      repeat split; try reflexivity; apply lookup_insert_eq.
Qed.

(** X15. [setConnection] adopts a session only when it is not already
    the current one, is authenticated and open, and carries the
    contact's 16-byte label; on success the session is the current
    connection, the connection time is the clock reading and is saved
    as [LastConnected], the saved configuration holds the contact's
    data, and the call ends by publishing an update that carries the
    final status and data and then sending the queued messages. *)
Theorem setConnection_adopts w conn clk w' :
  setConnection formatRFC3339 w conn clk = Returns (None, w') ->
  (exists oc,
     heap w !! conn = Some oc /\
     connection (contact w) <> Some conn /\
     IsAuthed oc = true /\ Closed oc = false /\
     label16 (Hostname (data (contact w))) = Returns (OtherHostname oc)) /\
  connection (contact w') = Some conn /\
  timeConnected (contact w') = nowConnected clk /\
  LastConnected (data (contact w')) = formatRFC3339 (nowConnected clk) /\
  config w' !! pretty (id (contact w')) = Some (data (contact w')) /\
  exists before,
    trace w' = before ++
      [APublishUpdate (status (contact w')) (data (contact w')); ASendQueuedMessages].
Proof.
  intros Hset.
  destruct (setConnection_success_facts w conn clk w' Hset)
    as (oc & Hoc & Hne & Hauth & Hopen & Hlabel & _ & _ & _ & _ & _ & _ & Hconn & Htime
        & Hlast & Hsaved & Hcases).
  split; [by exists oc |]. split; [exact Hconn |]. split; [exact Htime |].
  split; [exact Hlast |]. split; [exact Hsaved |].
  destruct (Pending (Request (data (contact w))));
    [destruct (Client oc && negb (outboundConnAuthKnown (contact w))) |];
    destruct Hcases as (_ & _ & ->).
  - exists (trace w ++ [ASendContactRequest conn 5
                          (MyNickname (Request (data (contact w))))
                          (Message (Request (data (contact w))))]).
    by rewrite <- app_assoc.
  - by exists (trace w).
  - by exists (trace w).
Qed.

(** X16. What a successful [setConnection] does to the contact's
    status and request. Without a pending request the contact becomes
    ONLINE. With a pending request, an outbound session that was not
    reported as known sends the contact request (channel 5, with the
    stored nickname and message) and leaves status and request as they
    are; any other session accepts the request implicitly: the request
    is cleared and the contact becomes ONLINE. *)
Theorem setConnection_status w conn clk w' oc :
  setConnection formatRFC3339 w conn clk = Returns (None, w') ->
  heap w !! conn = Some oc ->
  (Pending (Request (data (contact w))) = false ->
   status (contact w') = Contact_ONLINE /\
   Request (data (contact w')) = Request (data (contact w))) /\
  (Pending (Request (data (contact w))) = true ->
   Client oc && negb (outboundConnAuthKnown (contact w)) = true ->
   status (contact w') = status (contact w) /\
   Request (data (contact w')) = Request (data (contact w)) /\
   ASendContactRequest conn 5 (MyNickname (Request (data (contact w))))
     (Message (Request (data (contact w)))) ∈ trace w') /\
  (Pending (Request (data (contact w))) = true ->
   Client oc && negb (outboundConnAuthKnown (contact w)) = false ->
   status (contact w') = Contact_ONLINE /\
   Request (data (contact w')) = emptyRequest).
Proof.
  intros Hset Hoc.
  destruct (setConnection_success_facts w conn clk w' Hset)
    as (oc' & Hoc' & _ & _ & _ & _ & _ & _ & _ & _ & _ & _ & _ & _ & _ & _ & Hcases).
  assert (oc' = oc) as -> by congruence.
  split; [| split].
  - intros Hp. rewrite Hp in Hcases. tauto.
  - intros Hp Hout. rewrite Hp, Hout in Hcases.
    destruct Hcases as (Hst & Hreq & Htr). split; [exact Hst |]. split; [exact Hreq |].
    rewrite Htr. apply elem_of_app. right. apply elem_of_cons. by left.
  - intros Hp Hout. rewrite Hp, Hout in Hcases. tauto.
Qed.

Lemma Close_keeps_closed h q p oc :
  h !! p = Some oc -> Closed oc = true ->
  exists oc', Close q h !! p = Some oc' /\ Closed oc' = true.
Proof.
  intros Hp Hc. destruct (decide (q = p)) as [-> | Hne].
  - exists (closeConn oc). split; [by apply Close_lookup_same | reflexivity].
  - exists oc. by rewrite Close_lookup_other.
Qed.

(** X17. After [setConnection] returns, the candidate and a different
    former current connection are never both open; no session other
    than these two is touched, and no closed session is reopened. *)
Theorem setConnection_one_open w conn clk r w' cur :
  setConnection formatRFC3339 w conn clk = Returns (r, w') ->
  connection (contact w) = Some cur ->
  cur <> conn ->
  ((exists oc, heap w' !! cur = Some oc /\ Closed oc = true) \/
   (exists oc, heap w' !! conn = Some oc /\ Closed oc = true)) /\
  (forall p, p <> cur -> p <> conn -> heap w' !! p = heap w !! p) /\
  (forall p oc, heap w !! p = Some oc -> Closed oc = true ->
     exists oc', heap w' !! p = Some oc' /\ Closed oc' = true).
Proof.
  intros Hset Hcur Hne. destruct r as [e |].
  - destruct (setConnection_error formatRFC3339 w conn clk e w' Hset)
      as [(_ & Hdup & _) | (_ & _ & -> & oc & Hoc)]; [congruence |].
    cbn [heap set_heap]. split; [| split].
    + right. exists (closeConn oc). split; [by apply Close_lookup_same | reflexivity].
    + intros p _ Hp. by apply Close_lookup_other.
    + intros p oc'. apply Close_keeps_closed.
  - destruct (setConnection_adopted formatRFC3339 w conn clk w' Hset) as [_ Hheap].
    destruct (setConnection_success_facts w conn clk w' Hset)
      as (_ & _ & _ & _ & _ & _ & _ & Hold & _).
    destruct (Hold cur Hcur) as [old Hold'].
    rewrite Hcur in Hheap. rewrite Hheap. split; [| split].
    + left. exists (closeConn old). split; [by apply Close_lookup_same | reflexivity].
    + intros p Hp _. by apply Close_lookup_other.
    + intros p oc'. apply Close_keeps_closed.
Qed.

(** X18. A session that [setConnection] closes is not the current
    connection afterwards, so the notice of its closing ([OnDisconnect]
    of its handler, [OnConnectionClosed] of the contact) is dropped and
    never reaches the connection loop. *)
Theorem setConnection_closes_only_losers w conn clk r w' p oc oc' :
  setConnection formatRFC3339 w conn clk = Returns (r, w') ->
  heap w !! p = Some oc -> Closed oc = false ->
  heap w' !! p = Some oc' -> Closed oc' = true ->
  connection (contact w') <> Some p /\
  OnConnectionClosed w' (Some p) = false /\
  forall handler, Protocol.Conn handler = Some p -> Protocol.OnDisconnect handler w' = false.
Proof.
  intros Hset Hp Hopen Hp' Hclosed.
  assert (Hne : connection (contact w') <> Some p).
  { destruct r as [e |].
    - destruct (setConnection_error formatRFC3339 w conn clk e w' Hset)
        as [(_ & _ & ->) | (_ & Hcur & -> & _)]; [congruence |].
      cbn [heap set_heap contact] in *.
      destruct (decide (conn = p)) as [-> | Hq]; [exact Hcur |].
      rewrite Close_lookup_other in Hp' by exact Hq. congruence.
    - destruct (setConnection_adopted formatRFC3339 w conn clk w' Hset) as [Hconn Hheap].
      destruct (setConnection_success_facts w conn clk w' Hset)
        as (_ & _ & Hdup & _).
      rewrite Hconn. destruct (connection (contact w)) as [cur |].
      + rewrite Hheap in Hp'. destruct (decide (cur = p)) as [-> | Hq]; [congruence |].
        rewrite Close_lookup_other in Hp' by exact Hq. congruence.
      + rewrite Hheap in Hp'. congruence. }
  assert (Hdrop : OnConnectionClosed w' (Some p) = false)
    by (unfold OnConnectionClosed; by rewrite bool_decide_eq_false_2).
  split; [exact Hne |]. split; [exact Hdrop |].
  intros handler Hh. unfold Protocol.OnDisconnect. rewrite Hh, Hdrop.
  by destruct (Protocol.hasContact handler).
Qed.

Lemma clearConnection_kept w ifConn now w' :
  clearConnection formatRFC3339 w ifConn now = (w', false) -> w' = w.
Proof.
  unfold clearConnection.
  destruct (connection (contact w)) as [conn |]; [| by intros [= <-]].
  destruct (match ifConn with Some p => negb (bool_decide (conn = p)) | None => false end);
    [by intros [= <-] | discriminate].
Qed.

Lemma clearConnection_cleared w ifConn now w' :
  clearConnection formatRFC3339 w ifConn now = (w', true) ->
  exists p,
    connection (contact w) = Some p /\
    contact w' =
      set_data (set_status (set_connection (contact w) None) Contact_OFFLINE)
        (set_LastConnected (data (contact w)) (formatRFC3339 now)) /\
    config w' = <[pretty (id (contact w)) := data (contact w')]> (config w) /\
    trace w' = trace w ++ [APublishUpdate Contact_OFFLINE (data (contact w'))] /\
    heap w' = match heap w !! p with
              | Some oc => if negb (Closed oc) then Close p (heap w) else heap w
              | None => heap w
              end.
Proof.
  unfold clearConnection.
  destruct (connection (contact w)) as [conn |]; [| discriminate].
  destruct (match ifConn with Some p => negb (bool_decide (conn = p)) | None => false end);
    [discriminate |].
  intros [= <-]. exists conn. split; [reflexivity |].
  cbn [heap saveContact set_config set_contact contact].
  destruct (heap w !! conn) as [oc |]; [destruct (negb (Closed oc)) |];
    repeat split; reflexivity.
Qed.

(** X19. [clearConnection] either changes nothing and returns false
    (no connection, or a connection other than the one named), or
    returns true and leaves the contact without connection and
    OFFLINE, the former connection closed, the time of the call saved
    as [LastConnected] and one update published. Calling it again
    changes nothing. *)
Theorem clearConnection_clears w ifConn now :
  (snd (clearConnection formatRFC3339 w ifConn now) = false ->
   fst (clearConnection formatRFC3339 w ifConn now) = w) /\
  (snd (clearConnection formatRFC3339 w ifConn now) = true ->
   let w' := fst (clearConnection formatRFC3339 w ifConn now) in
   connection (contact w') = None /\
   status (contact w') = Contact_OFFLINE /\
   LastConnected (data (contact w')) = formatRFC3339 now /\
   config w' !! pretty (id (contact w')) = Some (data (contact w')) /\
   trace w' = trace w ++ [APublishUpdate Contact_OFFLINE (data (contact w'))] /\
   forall p oc, connection (contact w) = Some p -> heap w !! p = Some oc ->
     exists oc', heap w' !! p = Some oc' /\ Closed oc' = true) /\
  (forall now',
     clearConnection formatRFC3339 (fst (clearConnection formatRFC3339 w ifConn now))
       ifConn now'
     = (fst (clearConnection formatRFC3339 w ifConn now), false)).
Proof.
  destruct (clearConnection formatRFC3339 w ifConn now) as [w' [|]] eqn:Hclear;
    cbn [fst snd].
  - destruct (clearConnection_cleared w ifConn now w' Hclear)
      as (p & Hcur & Hc & Hg & Ht & Hh).
    split; [discriminate |]. split.
    + intros _. rewrite Hc at 1 2 3. cbn.
      split; [reflexivity |]. split; [reflexivity |]. split; [reflexivity |].
      split; [rewrite Hg; rewrite Hc at 1; apply lookup_insert_eq |].
      split; [exact Ht |].
      intros q oc Hq Hoc. assert (q = p) as -> by congruence.
      rewrite Hh, Hoc. destruct (Closed oc) eqn:Hcl; cbn [negb].
      * by exists oc.
      * exists (closeConn oc). split; [by apply Close_lookup_same | reflexivity].
    + intros now'. unfold clearConnection. by rewrite Hc.
  - apply clearConnection_kept in Hclear as Heq. subst w'.
    split; [reflexivity |]. split; [discriminate |].
    intros now'. revert Hclear. unfold clearConnection.
    destruct (connection (contact w)) as [conn |]; [| reflexivity].
    destruct (match ifConn with Some p => negb (bool_decide (conn = p)) | None => false end);
      [reflexivity | discriminate].
Qed.

Lemma clearConnection_all w now :
  connection (contact (fst (clearConnection formatRFC3339 w None now))) = None.
Proof.
  unfold clearConnection.
  destruct (connection (contact w)) as [conn |] eqn:Hc; [| exact Hc].
  cbn [fst].
  destruct (heap _ !! conn) as [oc |]; [destruct (negb (Closed oc)) |]; reflexivity.
Qed.

(** X20. When the current connection is reported closed, the turn of
    the connection loop dials nothing itself, leaves the contact
    OFFLINE without connection, and the next turn dials again exactly
    when connections are enabled. *)
Theorem loopTurn_connection_lost w p now :
  connection (contact w) = Some p ->
  exists w',
    loopTurn formatRFC3339 w (InConnClosed now) = Returns (w', true) /\
    connection (contact w') = None /\
    status (contact w') = Contact_OFFLINE /\
    dials (trace w') = dials (trace w) /\
    snd (loopHead w') = connEnabled (contact w).
Proof.
  intros Hcur. unfold loopTurn.
  assert (Hhead : loopHead w = (w, false)).
  { unfold loopHead. rewrite bool_decide_eq_false_2 by congruence. reflexivity. }
  rewrite Hhead. cbn [outboundCancel].
  eexists. split; [reflexivity |].
  destruct (clearConnection formatRFC3339 w None now) as [w' cleared] eqn:Hclear.
  assert (cleared = true) as ->.
  { revert Hclear. unfold clearConnection. rewrite Hcur. by intros [= _ <-]. }
  destruct (clearConnection_cleared w None now w' Hclear) as (q & _ & Hc & _ & Ht & _).
  cbn [fst]. rewrite Hc. cbn. split; [reflexivity |]. split; [reflexivity |].
  split.
  - rewrite Ht. unfold dials. rewrite List.filter_app, length_app. cbn. lia.
  - unfold loopHead, shouldMakeOutboundConnections. rewrite Hc. cbn.
    by destruct (connEnabled (contact w)).
Qed.

Lemma loopTurn_continues w input w' continue :
  loopTurn formatRFC3339 w input = Returns (w', continue) ->
  continue = match input with InChannelClosed => false | _ => true end.
Proof.
  unfold loopTurn. destruct (loopHead w) as [w0 spawned].
  destruct input as [| | conn clk | now]; try by intros [= _ <-].
  destruct (setConnection formatRFC3339 (outboundCancel w0 spawned) conn clk)
    as [[[e |] w2] |]; [| by intros [= _ <-] | discriminate].
  destruct (heap w2 !! conn) as [oc |]; [| discriminate].
  destruct (negb (Closed oc) && _); by intros [= _ <-].
Qed.

(** X21. Once the connection channel is closed the connection loop
    stops: the inputs that follow are not looked at, and the agent is
    left without a current connection. *)
Theorem contactConnection_exit w before after exitNow :
  contactConnection formatRFC3339 w (before ++ InChannelClosed :: after) exitNow
    = contactConnection formatRFC3339 w (before ++ [InChannelClosed]) exitNow /\
  forall w',
    contactConnection formatRFC3339 w (before ++ InChannelClosed :: after) exitNow
      = Returns w' ->
    connection (contact w') = None.
Proof.
  revert w. induction before as [| input rest IH]; intros w.
  - cbn [app contactConnection].
    destruct (loopTurn formatRFC3339 w InChannelClosed) as [[w1 continue] |] eqn:Hturn.
    + apply loopTurn_continues in Hturn as ->. cbn.
      split; [reflexivity |]. intros w' [= <-]. apply clearConnection_all.
    + split; [reflexivity | discriminate].
  - cbn [app contactConnection].
    destruct (loopTurn formatRFC3339 w input) as [[w1 [|]] |].
    + apply IH.
    + split; [reflexivity |]. intros w' [= <-]. apply clearConnection_all.
    + split; [reflexivity | discriminate].
Qed.

Lemma Close_fields h q p oc :
  h !! p = Some oc ->
  exists oc', Close q h !! p = Some oc' /\
              IsAuthed oc' = IsAuthed oc /\ OtherHostname oc' = OtherHostname oc.
Proof.
  intros Hp. destruct (decide (q = p)) as [-> | Hne].
  - exists (closeConn oc). split; [by apply Close_lookup_same | auto].
  - exists oc. by rewrite Close_lookup_other.
Qed.

Lemma current_ok_frame w w' :
  connection (contact w') = connection (contact w) ->
  Hostname (data (contact w')) = Hostname (data (contact w)) ->
  (heap w' = heap w \/ exists q, heap w' = Close q (heap w)) ->
  current_ok w -> current_ok w'.
Proof.
  intros Hc Hh Hheap Hok p Hp. rewrite Hc in Hp.
  destruct (Hok p Hp) as (oc & Hoc & Hauth & Hlabel). rewrite Hh.
  destruct Hheap as [-> | [q ->]]; [by exists oc |].
  destruct (Close_fields (heap w) q p oc Hoc) as (oc' & Hoc' & Ha & Ho).
  exists oc'. rewrite Ha, Ho. auto.
Qed.

Lemma setConnection_invariants w conn clk r w' :
  setConnection formatRFC3339 w conn clk = Returns (r, w') ->
  id (contact w') = id (contact w) /\
  Hostname (data (contact w')) = Hostname (data (contact w)) /\
  (current_ok w -> current_ok w') /\
  (persisted w -> persisted w').
Proof.
  intros Hset. destruct r as [e |].
  - destruct (setConnection_error formatRFC3339 w conn clk e w' Hset)
      as [(_ & _ & ->) | (_ & _ & -> & _)]; [auto |].
    split; [reflexivity |]. split; [reflexivity |]. split; [| auto].
    apply current_ok_frame; [reflexivity | reflexivity |]. right. by exists conn.
  - destruct (setConnection_adopted formatRFC3339 w conn clk w' Hset) as [_ Hheap].
    destruct (setConnection_success_facts w conn clk w' Hset)
      as (oc & Hoc & _ & Hauth & _ & Hlabel & _ & _ & Hid & Hhost & _ & _ & Hconn & _ & _
          & Hsaved & _).
    split; [exact Hid |]. split; [exact Hhost |]. split; [| auto].
    intros _ p Hp. rewrite Hconn in Hp. injection Hp as <-. rewrite Hhost.
    destruct (connection (contact w)) as [cur |]; rewrite Hheap.
    + destruct (Close_fields (heap w) cur conn oc Hoc) as (oc' & Hoc' & Ha & Ho).
      exists oc'. rewrite Ha, Ho. auto.
    + by exists oc.
Qed.

Lemma clearConnection_invariants w ifConn now :
  id (contact (fst (clearConnection formatRFC3339 w ifConn now))) = id (contact w) /\
  Hostname (data (contact (fst (clearConnection formatRFC3339 w ifConn now))))
    = Hostname (data (contact w)) /\
  (current_ok w -> current_ok (fst (clearConnection formatRFC3339 w ifConn now))) /\
  (persisted w -> persisted (fst (clearConnection formatRFC3339 w ifConn now))).
Proof.
  destruct (clearConnection formatRFC3339 w ifConn now) as [w' [|]] eqn:Hclear;
    cbn [fst].
  - destruct (clearConnection_cleared w ifConn now w' Hclear)
      as (p & _ & Hc & Hg & _ & _).
    rewrite Hc at 1 2. cbn. split; [reflexivity |]. split; [reflexivity |]. split.
    + intros _ q Hq. rewrite Hc in Hq. discriminate.
    + intros _. unfold persisted. rewrite Hg. rewrite Hc at 1. apply lookup_insert_eq.
  - apply clearConnection_kept in Hclear as ->. auto.
Qed.

Lemma loopHead_same w :
  contact (fst (loopHead w)) = contact w /\
  heap (fst (loopHead w)) = heap w /\
  config (fst (loopHead w)) = config w.
Proof.
  unfold loopHead. by destruct (bool_decide _ && shouldMakeOutboundConnections _).
Qed.

Lemma outboundCancel_same w spawned :
  contact (outboundCancel w spawned) = contact w /\
  heap (outboundCancel w spawned) = heap w /\
  config (outboundCancel w spawned) = config w.
Proof. by destruct spawned. Qed.

Lemma invariants_transfer w w0 :
  contact w0 = contact w -> heap w0 = heap w -> config w0 = config w ->
  (current_ok w -> current_ok w0) /\ (persisted w -> persisted w0).
Proof.
  intros Hc Hh Hg. unfold current_ok, persisted. rewrite Hc, Hh, Hg. auto.
Qed.

Lemma loopTurn_invariants w input w' continue :
  loopTurn formatRFC3339 w input = Returns (w', continue) ->
  id (contact w') = id (contact w) /\
  Hostname (data (contact w')) = Hostname (data (contact w)) /\
  (current_ok w -> current_ok w') /\
  (persisted w -> persisted w').
Proof.
  unfold loopTurn.
  destruct (loopHead w) as [w0 spawned] eqn:Hhead.
  pose proof (loopHead_same w) as (Hc0 & Hh0 & Hg0). rewrite Hhead in Hc0, Hh0, Hg0.
  cbn [fst] in *.
  destruct (outboundCancel_same w0 spawned) as (Hc1 & Hh1 & Hg1).
  set (w1 := outboundCancel w0 spawned) in *.
  destruct (invariants_transfer w w1) as [Hok1 Hsv1]; [congruence | congruence | congruence |].
  assert (Hid1 : id (contact w1) = id (contact w)) by congruence.
  assert (Hhost1 : Hostname (data (contact w1)) = Hostname (data (contact w)))
    by congruence.
  destruct input as [| | conn clk | now].
  - intros [= <- _]. auto.
  - intros [= <- _]. auto.
  - destruct (setConnection formatRFC3339 w1 conn clk) as [[[e |] w2] |] eqn:Hset;
      [| | discriminate].
    + destruct (setConnection_invariants w1 conn clk _ w2 Hset) as (Hid & Hh & Hok & Hsv).
      destruct (heap w2 !! conn) as [oc |]; [| discriminate].
      destruct (negb (Closed oc) && _); intros [= <- _].
      * cbn [contact set_heap]. split; [congruence |]. split; [congruence |]. split.
        -- intros H. apply (current_ok_frame w2); [reflexivity | reflexivity | | auto].
           right. by exists conn.
        -- intros H. apply Hsv, Hsv1, H.
      * split; [congruence |]. split; [congruence |]. auto.
    + destruct (setConnection_invariants w1 conn clk _ w2 Hset) as (Hid & Hh & Hok & Hsv).
      intros [= <- _]. split; [congruence |]. split; [congruence |]. auto.
  - intros [= <- _].
    destruct (clearConnection_invariants w1 None now) as (Hid & Hh & Hok & Hsv).
    split; [congruence |]. split; [congruence |]. auto.
Qed.

(** X22. Along every run of the connection loop the contact keeps its
    id and hostname, the current connection (when there is one) is an
    authenticated session carrying the contact's label, and the saved
    configuration keeps holding the contact's data. *)
Theorem contactConnection_invariants w inputs exitNow w' :
  contactConnection formatRFC3339 w inputs exitNow = Returns w' ->
  id (contact w') = id (contact w) /\
  Hostname (data (contact w')) = Hostname (data (contact w)) /\
  (current_ok w -> current_ok w') /\
  (persisted w -> persisted w').
Proof.
  revert w. induction inputs as [| input rest IH]; intros w; cbn [contactConnection].
  - intros [= <-]. destruct (loopHead_same w) as (Hc & Hh & Hg).
    destruct (invariants_transfer w (fst (loopHead w)) Hc Hh Hg).
    rewrite Hc. auto.
  - destruct (loopTurn formatRFC3339 w input) as [[w1 continue] |] eqn:Hturn;
      [| discriminate].
    destruct (loopTurn_invariants w input w1 continue Hturn) as (Hid & Hh & Hok & Hsv).
    destruct continue.
    + intros Hrun. destruct (IH w1 Hrun) as (Hid' & Hh' & Hok' & Hsv').
      split; [congruence |]. split; [congruence |]. auto.
    + intros [= <-].
      destruct (clearConnection_invariants w1 None exitNow) as (Hid' & Hh' & Hok' & Hsv').
      split; [congruence |]. split; [congruence |]. auto.
Qed.



(** X25. [StopConnection] on a running agent closes the connection
    channel but leaves connections marked as enabled: after it,
    [StartConnection] does nothing, a second [StopConnection] panics on
    the nil channel, and a session that authenticates is closed
    without reaching the connection loop. *)
Theorem StopConnection_once w :
  connEnabled (contact w) = true ->
  connChannel (contact w) = true ->
  exists w1,
    StopConnection w = Returns (w1, true) /\
    connChannel (contact w1) = false /\
    connEnabled (contact w1) = true /\
    (forall inputs exitNow,
       StartConnection formatRFC3339 w1 inputs exitNow = Returns w1) /\
    StopConnection w1 = Panics /\
    (forall conn oc known, heap w1 !! conn = Some oc ->
       exists w2 oc',
         OnConnectionAuthenticated w1 conn known = Returns (w2, None) /\
         heap w2 !! conn = Some oc' /\ Closed oc' = true).
Proof.
  intros Hen Hch. unfold StopConnection at 1. rewrite Hen, Hch. cbn [negb].
  eexists. split; [reflexivity |]. cbn.
  split; [reflexivity |]. split; [exact Hen |]. split; [| split].
  - intros inputs exitNow. unfold StartConnection. cbn. by rewrite Hen.
  - unfold StopConnection. cbn. by rewrite Hen.
  - intros conn oc known Hoc. unfold OnConnectionAuthenticated. cbn in *. rewrite Hoc.
    cbn. exists (if Client oc
                 then set_contact
                        (set_heap (set_contact w (set_connChannel (contact w) false))
                           (Close conn (heap w)))
                        (set_outboundConnAuthKnown
                           (set_connChannel (contact w) false) known)
                 else set_heap (set_contact w (set_connChannel (contact w) false))
                        (Close conn (heap w))),
                (closeConn oc).
    destruct (Client oc); cbn; (split; [reflexivity |]);
      (split; [by apply Close_lookup_same | reflexivity]).
Qed.

End AgentMore.

(** * Properties of the protocol handlers *)

Section ProtocolFacts.
Import Agent Protocol.

Variable formatRFC3339 : Z -> string.

(** X26. [OnAuthenticationResult] closes the authentication channel. A
    negative result leaves the session unauthenticated and closed,
    hands nothing to the connection loop and does not touch the
    contact. A session is handed over only on a positive result, with
    a contact assigned and the connection channel in place; it is then
    authenticated, and for an outbound session the contact remembers
    the reported isKnownContact. *)
Theorem OnAuthenticationResult_delivers p w channelID result known conn s0 :
  Conn p = Some conn ->
  heap w !! conn = Some s0 ->
  exists w' d,
    OnAuthenticationResult p w channelID result known
      = Returns (w', [WCloseChannel conn channelID], d) /\
    (result = false ->
     d = None /\ contact w' = contact w /\
     exists s, heap w' !! conn = Some s /\ Closed s = true /\ IsAuthed s = false) /\
    (d <> None ->
     d = Some conn /\ result = true /\ hasContact p = true /\
     connChannel (contact w) = true /\
     exists s, heap w' !! conn = Some s /\ IsAuthed s = true /\
               (Client s = true -> outboundConnAuthKnown (contact w') = known)).
Proof.
  intros Hconn Hs0. unfold OnAuthenticationResult. rewrite Hconn, Hs0.
  destruct result; cbn [negb].
  - destruct (hasContact p).
    + unfold OnConnectionAuthenticated. cbn [heap set_heap contact].
      rewrite lookup_alter_eq, Hs0. cbn [fmap option_fmap option_map setAuthed Client].
      destruct (connChannel (contact w)) eqn:Hch; cbn [negb].
      * eexists. eexists. split; [reflexivity |]. split; [discriminate |].
        intros _. destruct (Client s0) eqn:Hcl; cbn; rewrite Hch;
          (split; [reflexivity |]); (split; [reflexivity |]); (split; [reflexivity |]);
          (split; [reflexivity |]); exists (setAuthed true s0);
          rewrite lookup_alter_eq, Hs0; cbn; rewrite ?Hcl; auto.
        split; [reflexivity |]. split; [reflexivity | discriminate].
      * eexists. eexists. split; [reflexivity |]. split; [discriminate |].
        destruct (Client s0); cbn; rewrite Hch; congruence.
    + eexists. eexists. split; [reflexivity |]. split; [discriminate | congruence].
  - eexists. eexists. split; [reflexivity |]. split; [| congruence].
    intros _. split; [reflexivity |]. split; [reflexivity |].
    exists (closeConn (setAuthed false s0)). cbn [heap set_heap].
    split; [| auto]. apply Close_lookup_same. by rewrite lookup_alter_eq, Hs0.
Qed.

(** X27. [OnAuthenticationProof] always answers with the authentication
    result followed by closing the channel. The result is positive
    exactly when the proof validates and the session's peer hostname
    has 16 bytes, and the session's [IsAuthed] flag is set to it. The
    session is handed to the connection loop only when the result is
    positive and the lookup by that hostname finds the contact. *)
Theorem OnAuthenticationProof_delivers
  (validateProof : OpenConnection -> bool * OpenConnection)
  (getContactByHostname : string -> bool) p w channelID conn s0 :
  Conn p = Some conn ->
  heap w !! conn = Some s0 ->
  let result := fst (validateProof s0)
                && (strlen (OtherHostname (snd (validateProof s0))) =? 16) in
  exists p' w' d s,
    OnAuthenticationProof validateProof getContactByHostname p w channelID
      = Returns (p', w',
                 [WSendAuthenticationResult conn channelID result (hasContact p');
                  WCloseChannel conn channelID], d) /\
    heap w' !! conn = Some s /\
    IsAuthed s = result /\
    OtherHostname s = OtherHostname (snd (validateProof s0)) /\
    (d <> None ->
     d = Some conn /\ result = true /\
     getContactByHostname (OtherHostname s) = true).
Proof.
  intros Hconn Hs0. cbv zeta. unfold OnAuthenticationProof. rewrite Hconn, Hs0.
  destruct (validateProof s0) as [valid s1]. cbn [fst snd].
  assert (Hlook : forall b,
    alter (setAuthed b) conn (<[conn := s1]> (heap w)) !! conn = Some (setAuthed b s1))
    by (intros b; by rewrite lookup_alter_eq, lookup_insert_eq).
  destruct valid; cbn [andb].
  - destruct (Z.eqb_spec (strlen (OtherHostname s1)) 16) as [Hlen | Hlen]; cbn [negb].
    + cbn [hasContact Conn andb heap set_heap].
      destruct (getContactByHostname (OtherHostname s1)) eqn:Hget.
      * unfold OnConnectionAuthenticated. cbn [heap set_heap contact].
        rewrite Hlook. cbn [setAuthed Client].
        exists (mkPC (Some conn) true (pcMyHostname p)).
        destruct (connChannel (contact w)) eqn:Hch; cbn [negb].
        -- destruct (Client s1); cbn; rewrite Hch;
             eexists; eexists; exists (setAuthed true s1);
             (split; [reflexivity |]); cbn; (split; [apply Hlook |]); cbn; auto.
        -- destruct (Client s1); cbn; rewrite Hch;
             eexists; eexists; exists (closeConn (setAuthed true s1));
             (split; [reflexivity |]); cbn;
             (split; [apply Close_lookup_same, Hlook |]); cbn;
             (split; [reflexivity |]); (split; [reflexivity |]); congruence.
      * exists (mkPC (Some conn) false (pcMyHostname p)).
        eexists. eexists. exists (setAuthed true s1). split; [reflexivity |].
        cbn. split; [apply Hlook |]. cbn.
        split; [reflexivity |]. split; [reflexivity | congruence].
    + exists p. eexists. eexists. exists (setAuthed false s1). split; [reflexivity |].
      cbn. split; [apply Hlook |]. cbn.
      split; [reflexivity |]. split; [reflexivity | congruence].
  - exists p. eexists. eexists. exists (setAuthed false s1). split; [reflexivity |].
    cbn. split; [apply Hlook |]. cbn.
    split; [reflexivity |]. split; [reflexivity | congruence].
Qed.


End ProtocolFacts.

(** * Properties of the network resolver *)

Section ResolverFacts.
Import Resolver.

Lemma Split_plain (s : string) (sep : ascii) :
  ~ In sep (list_ascii_of_string s) -> Split s sep = [s].
Proof.
  induction s as [| ch rest IH]; [reflexivity |].
  cbn [list_ascii_of_string In Split]. intros Hno.
  destruct (Ascii.eqb_spec ch sep) as [-> | _]; [tauto |].
  rewrite IH by tauto. reflexivity.
Qed.

Lemma Split_at (a b : string) (sep : ascii) :
  ~ In sep (list_ascii_of_string a) ->
  Split (a +:+ String sep b) sep = a :: Split b sep.
Proof.
  induction a as [| ch rest IH]; cbn [list_ascii_of_string In].
  - intros _. change (EmptyString +:+ String sep b) with (String sep b).
    cbn [Split]. by rewrite Ascii.eqb_refl.
  - intros Hno.
    change (String ch rest +:+ String sep b) with (String ch (rest +:+ String sep b)).
    cbn [Split].
    destruct (Ascii.eqb_spec ch sep) as [-> | _]; [tauto |].
    rewrite IH by tauto. reflexivity.
Qed.

Lemma prefix_chars (pre s : string) ch :
  String.prefix pre s = true ->
  In ch (list_ascii_of_string pre) -> In ch (list_ascii_of_string s).
Proof.
  revert s. induction pre as [| a pre IH]; intros s; [contradiction |].
  destruct s as [| b s]; cbn [String.prefix]; [discriminate |].
  destruct (ascii_dec a b) as [-> | _]; [| discriminate].
  cbn [list_ascii_of_string In]. intros Hpre [-> | Hin]; [by left |].
  right. by apply IH.
Qed.

(** X29. The two spellings of an onion address resolve alike: for a
    label without a colon that does not start with 127.0.0.1,
    [Resolve] on "ricochet:" followed by the label and on the bare
    label dial the same target, the label followed by ".onion:9878",
    through the proxy and return the bare label as the hostname. *)
Theorem Resolve_canonical_forms net label :
  ~ In ":"%char (list_ascii_of_string label) ->
  HasPrefix label "127.0.0.1" = false ->
  Resolve net ("ricochet:" +:+ label) = Resolve net label /\
  Resolve net label =
    if negb (SOCKS5 net) then Returns (inr ProxyError)
    else match TorDial net (label +:+ ".onion:9878") with
         | None => Returns (inr CannotDialRicochetAddressError)
         | Some conn => Returns (inl (conn, label))
         end.
Proof.
  intros Hno Hlocal.
  assert (Hric : HasPrefix label "ricochet:" = false).
  { unfold HasPrefix. destruct (String.prefix "ricochet:" label) eqn:Hpre; [| reflexivity].
    exfalso. apply Hno. apply (prefix_chars "ricochet:" label _ Hpre).
    cbn. tauto. }
  assert (Hbare : Resolve net label =
    if negb (SOCKS5 net) then Returns (inr ProxyError)
    else match TorDial net (label +:+ ".onion:9878") with
         | None => Returns (inr CannotDialRicochetAddressError)
         | Some conn => Returns (inl (conn, label))
         end).
  { unfold Resolve. by rewrite Hlocal, Hric. }
  split; [| exact Hbare]. rewrite Hbare. unfold Resolve.
  assert (H1 : HasPrefix ("ricochet:" +:+ label) "127.0.0.1" = false) by reflexivity.
  assert (H2 : HasPrefix ("ricochet:" +:+ label) "ricochet:" = true)
    by (unfold HasPrefix; simpl; by destruct label).
  rewrite H1, H2.
  change ("ricochet:" +:+ label)%string with ("ricochet" +:+ String ":" label)%string.
  rewrite Split_at
    by (cbn; intros H; repeat destruct H as [H | H]; first [discriminate | contradiction]).
  rewrite Split_plain by exact Hno. reflexivity.
Qed.

(** X30. The local override: for a hostname that starts with 127.0.0.1
    and reads [local|onion], [Resolve] resolves and dials [local] over
    TCP, never the proxy, and returns [onion] as the hostname; without
    a bar in the hostname a successful dial ends in a panic, the onion
    part being indexed past the end. *)
Theorem Resolve_local_override net (local onion : string) :
  ~ In "|"%char (list_ascii_of_string local) ->
  ~ In "|"%char (list_ascii_of_string onion) ->
  HasPrefix local "127.0.0.1" = true ->
  Resolve net (local +:+ String "|" onion) =
    match ResolveTCPAddr net local with
    | None => Returns (inr CannotResolveLocalTCPAddressError)
    | Some tcpAddr =>
        match DialTCP net tcpAddr with
        | None => Returns (inr CannotDialLocalTCPAddressError)
        | Some conn => Returns (inl (conn, onion))
        end
    end /\
  forall tcpAddr conn,
    ResolveTCPAddr net local = Some tcpAddr ->
    DialTCP net tcpAddr = Some conn ->
    Resolve net local = Panics.
Proof.
  intros Hlocal Honion Hpre.
  assert (Hpre' : HasPrefix (local +:+ String "|" onion) "127.0.0.1" = true).
  { revert Hpre. unfold HasPrefix. generalize "127.0.0.1"%string as pre.
    clear. induction local as [| b rest IH]; intros pre.
    - destruct pre as [| a pre]; [reflexivity | discriminate].
    - destruct pre as [| a pre]; [reflexivity |].
      change (String b rest +:+ String "|" onion)
        with (String b (rest +:+ String "|" onion)).
      cbn [String.prefix].
      destruct (ascii_dec a b); [apply IH | discriminate]. }
  split.
  - unfold Resolve. rewrite Hpre', Split_at by exact Hlocal.
    rewrite Split_plain by exact Honion. cbn [lookup list_lookup].
    destruct (ResolveTCPAddr net local) as [tcpAddr |]; [| reflexivity].
    by destruct (DialTCP net tcpAddr).
  - intros tcpAddr conn Hres Hdial. unfold Resolve.
    rewrite Hpre, Split_plain by exact Hlocal. cbn [lookup list_lookup].
    by rewrite Hres, Hdial.
Qed.

End ResolverFacts.

(** * The further properties at concrete inputs *)

Section MoreExamples.
Import Agent Protocol.

Lemma setConnection_adopts_witness :
  connection (contact (Fixtures.afterSetConnection Fixtures.noFormat Fixtures.worldB
                         2%positive Fixtures.freshClock)) = Some 2%positive.
Proof.
  apply (setConnection_adopts Fixtures.noFormat Fixtures.worldB 2%positive
           Fixtures.freshClock).
  vm_compute. reflexivity.
Defined.

Lemma setConnection_status_witness :
  status (contact (Fixtures.afterSetConnection Fixtures.stampFormat Fixtures.worldPending
                     1%positive Fixtures.freshClock)) = Contact_REQUEST.
Proof.
  apply (proj1 (proj2 (setConnection_status Fixtures.stampFormat Fixtures.worldPending
           1%positive Fixtures.freshClock
           (Fixtures.afterSetConnection Fixtures.stampFormat Fixtures.worldPending
              1%positive Fixtures.freshClock)
           (Fixtures.session true Fixtures.labelA Fixtures.labelB)
           ltac:(vm_compute; reflexivity) ltac:(vm_compute; reflexivity)))
           eq_refl eq_refl).
Defined.

Lemma setConnection_one_open_witness :
  (exists oc, heap (Fixtures.afterSetConnection Fixtures.noFormat Fixtures.worldA
                      2%positive Fixtures.freshClock) !! 1%positive = Some oc /\
              Closed oc = true) \/
  (exists oc, heap (Fixtures.afterSetConnection Fixtures.noFormat Fixtures.worldA
                      2%positive Fixtures.freshClock) !! 2%positive = Some oc /\
              Closed oc = true).
Proof.
  apply (setConnection_one_open Fixtures.noFormat Fixtures.worldA 2%positive
           Fixtures.freshClock (Some ErrUsingExisting)
           (Fixtures.afterSetConnection Fixtures.noFormat Fixtures.worldA
              2%positive Fixtures.freshClock) 1%positive).
  - vm_compute. reflexivity.
  - reflexivity.
  - discriminate.
Defined.

Lemma setConnection_closes_only_losers_witness :
  OnConnectionClosed
    (Fixtures.afterSetConnection Fixtures.noFormat Fixtures.worldA 2%positive
       Fixtures.freshClock) (Some 2%positive) = false.
Proof.
  apply (setConnection_closes_only_losers Fixtures.noFormat Fixtures.worldA 2%positive
           Fixtures.freshClock (Some ErrUsingExisting)
           (Fixtures.afterSetConnection Fixtures.noFormat Fixtures.worldA
              2%positive Fixtures.freshClock) 2%positive
           (Fixtures.session false Fixtures.labelA Fixtures.labelB)
           (closeConn (Fixtures.session false Fixtures.labelA Fixtures.labelB)));
    vm_compute; reflexivity.
Defined.

Lemma clearConnection_clears_witness :
  status (contact (fst (clearConnection Fixtures.noFormat Fixtures.worldA None 5)))
    = Contact_OFFLINE.
Proof.
  apply (proj1 (proj2 (clearConnection_clears Fixtures.noFormat Fixtures.worldA None 5))).
  vm_compute. reflexivity.
Defined.

Lemma loopTurn_connection_lost_witness :
  exists w',
    loopTurn Fixtures.noFormat Fixtures.worldA (InConnClosed 5) = Returns (w', true) /\
    connection (contact w') = None /\
    status (contact w') = Contact_OFFLINE /\
    dials (trace w') = dials (trace Fixtures.worldA) /\
    snd (loopHead w') = connEnabled (contact Fixtures.worldA).
Proof.
  apply (loopTurn_connection_lost Fixtures.noFormat Fixtures.worldA 1%positive 5).
  reflexivity.
Defined.

Lemma contactConnection_exit_witness :
  connection (contact (Fixtures.afterLoop Fixtures.noFormat Fixtures.worldA
                         [InConnClosed 5; InChannelClosed; InSignal] 9)) = None.
Proof.
  apply (proj2 (contactConnection_exit Fixtures.noFormat Fixtures.worldA
           [InConnClosed 5] [InSignal] 9)).
  vm_compute. reflexivity.
Defined.

Lemma contactConnection_invariants_witness :
  current_ok (Fixtures.afterLoop Fixtures.noFormat Fixtures.worldA
                [InConn 2%positive Fixtures.freshClock; InSignal] 9).
Proof.
  apply (contactConnection_invariants Fixtures.noFormat Fixtures.worldA
           [InConn 2%positive Fixtures.freshClock; InSignal] 9).
  - vm_compute. reflexivity.
  - intros p Hp. injection Hp as <-.
    exists (Fixtures.session true Fixtures.labelA Fixtures.labelB).
    repeat split; vm_compute; reflexivity.
Defined.



Lemma StopConnection_once_witness :
  exists w1,
    StopConnection Fixtures.worldOffline = Returns (w1, true) /\
    connChannel (contact w1) = false /\
    connEnabled (contact w1) = true /\
    (forall inputs exitNow,
       StartConnection Fixtures.noFormat w1 inputs exitNow = Returns w1) /\
    StopConnection w1 = Panics /\
    (forall conn oc known, heap w1 !! conn = Some oc ->
       exists w2 oc',
         OnConnectionAuthenticated w1 conn known = Returns (w2, None) /\
         heap w2 !! conn = Some oc' /\ Closed oc' = true).
Proof.
  apply (StopConnection_once Fixtures.noFormat Fixtures.worldOffline); reflexivity.
Defined.

Lemma OnAuthenticationResult_delivers_witness :
  exists w' d,
    OnAuthenticationResult (mkPC (Some 1%positive) true Fixtures.labelA)
      Fixtures.worldOffline 1 false false
      = Returns (w', [WCloseChannel 1%positive 1], d) /\
    (false = false ->
     d = None /\ contact w' = contact Fixtures.worldOffline /\
     exists s, heap w' !! 1%positive = Some s /\ Closed s = true /\ IsAuthed s = false) /\
    (d <> None ->
     d = Some 1%positive /\ false = true /\ true = true /\
     connChannel (contact Fixtures.worldOffline) = true /\
     exists s, heap w' !! 1%positive = Some s /\ IsAuthed s = true /\
               (Client s = true -> outboundConnAuthKnown (contact w') = false)).
Proof.
  apply (OnAuthenticationResult_delivers (mkPC (Some 1%positive) true Fixtures.labelA)
           Fixtures.worldOffline 1 false false 1%positive
           (Fixtures.session true Fixtures.labelA Fixtures.labelB));
    vm_compute; reflexivity.
Defined.

Lemma OnAuthenticationProof_delivers_witness :
  exists p' w' d s,
    OnAuthenticationProof (fun s => (true, s)) (fun _ => true)
      (mkPC (Some 2%positive) false Fixtures.labelA) Fixtures.worldA 3
      = Returns (p', w',
                 [WSendAuthenticationResult 2%positive 3 true (hasContact p');
                  WCloseChannel 2%positive 3], d) /\
    heap w' !! 2%positive = Some s /\
    IsAuthed s = true /\
    OtherHostname s = Fixtures.labelB /\
    (d <> None ->
     d = Some 2%positive /\ true = true /\ (fun _ : string => true) (OtherHostname s) = true).
Proof.
  apply (OnAuthenticationProof_delivers (fun s => (true, s)) (fun _ => true)
           (mkPC (Some 2%positive) false Fixtures.labelA) Fixtures.worldA 3 2%positive
           (Fixtures.session false Fixtures.labelA Fixtures.labelB));
    vm_compute; reflexivity.
Defined.


Lemma Resolve_canonical_forms_witness :
  Resolver.Resolve Fixtures.openNetwork ("ricochet:" +:+ Fixtures.labelB)
    = Resolver.Resolve Fixtures.openNetwork Fixtures.labelB.
Proof.
  apply (Resolve_canonical_forms Fixtures.openNetwork Fixtures.labelB).
  - cbn. intros H. repeat destruct H as [H | H]; first [discriminate | contradiction].
  - reflexivity.
Defined.

Lemma Resolve_local_override_witness :
  Resolver.Resolve Fixtures.openNetwork ("127.0.0.1:5555" +:+ String "|" Fixtures.labelB)
    = Returns (inl (1, Fixtures.labelB)).
Proof.
  apply (proj1 (Resolve_local_override Fixtures.openNetwork "127.0.0.1:5555"
                  Fixtures.labelB
                  ltac:(cbn; intros H; repeat destruct H as [H | H];
                        first [discriminate | contradiction])
                  ltac:(cbn; intros H; repeat destruct H as [H | H];
                        first [discriminate | contradiction])
                  eq_refl)).
Defined.

End MoreExamples.
